(** * A shallow embedding of the detection pipeline

    The development follows three source files:
    - [modules/YoloE.py]: the inference engine (bounded queues, the
      configuration setters, [stop]/[put]/[get], [update_classes]),
      [letterbox] and the renderer [plot_dets];
    - [img-search.py]: the alert logic of [Demo]
      ([check_for_search_targets], [trigger_security_alert]) and the
      enrollment paths ([process_face_like_mouse_click],
      [process_target_face_automatically]);
    - [backend/main.py]: the watched list of the movie time tracker
      ([parse_runtime], [add_watched_movie], [remove_watched_movie],
      [get_stats]).

    Python values are modelled by their mathematical content: the
    numbers the code only compares, adds to integers or truncates are
    exact rationals (every finite [int] and [float] is one), the
    products and quotients it rounds are binary64 floats, images are
    row-major lists of pixels, dictionaries are finite maps, and a
    call either returns, raises, or parks its thread on a queue. *)

From Stdlib Require Import ZArith QArith Bool List Ascii String Lia.
From Stdlib Require Uint63 Floats.
From stdpp Require Import base option list gmap sets strings pretty.

Import ListNotations.
Local Open Scope string_scope.
Local Open Scope list_scope.
Local Open Scope Z_scope.

(** ** Python outcomes *)

Module Py.

(** The exception classes the modelled code raises or intercepts. All
    of them derive from [Exception]. *)
Inductive exn : Type :=
| ValueError (msg : string)
| TypeError
| ZeroDivisionError
| OverflowError
| IndexError
| KeyError
| QueueFull
| QueueEmpty
| Cv2Error
| RuntimeError (msg : string).

(** A pure computation that may raise. *)
Inductive result (A : Type) : Type :=
| Ok (a : A)
| Raise (e : exn).
Arguments Ok {A} a.
Arguments Raise {A} e.

Definition bind {A B} (m : result A) (k : A -> result B) : result B :=
  match m with
  | Ok a => k a
  | Raise e => Raise e
  end.

Fixpoint foldM {A S} (f : S -> A -> result S) (s : S) (l : list A) : result S :=
  match l with
  | [] => Ok s
  | a :: l' => bind (f s a) (fun s' => foldM f s' l')
  end.

(** [int(x)] on a number: truncation toward zero. *)
Definition int (q : Q) : Z := Z.quot (Qnum q) (Zpos (Qden q)).

(** Strict comparison [a < b] on numbers, as a boolean. *)
Definition lt (a b : Q) : bool := negb (Qle_bool b a).

(** [float(n)] for an integer below [2^63] in absolute value. *)
Definition float_of_int (n : Z) : PrimFloat.float :=
  if n <? 0 then PrimFloat.opp (PrimFloat.of_uint63 (Uint63.of_Z (- n)))
  else PrimFloat.of_uint63 (Uint63.of_Z n).

(** [int(x)] on a float: truncation toward zero; [ValueError] on a
    NaN and [OverflowError] on an infinity. *)
Definition int_of_float (x : PrimFloat.float) : result Z :=
  match FloatOps.Prim2SF x with
  | SpecFloat.S754_zero _ => Ok 0
  | SpecFloat.S754_finite negative m e =>
      let magnitude :=
        match e with
        | Z0 => Zpos m
        | Zpos p => Z.shiftl (Zpos m) (Zpos p)
        | Zneg p => Z.shiftr (Zpos m) (Zpos p)
        end in
      Ok (if negative then - magnitude else magnitude)
  | SpecFloat.S754_infinity _ => Raise OverflowError
  | SpecFloat.S754_nan => Raise (ValueError "cannot convert float NaN to integer")
  end.

(** [zip(a, b, c)]: stops at the shortest argument. *)
Fixpoint zip3 {A B C} (a : list A) (b : list B) (c : list C) : list (A * B * C) :=
  match a, b, c with
  | x :: a', y :: b', z :: c' => (x, y, z) :: zip3 a' b' c'
  | _, _, _ => []
  end.

End Py.

(** [result] is a monad; the code below uses stdpp's [x ← m; k]. *)
#[global] Instance result_ret : MRet Py.result := @Py.Ok.
#[global] Instance result_bind : MBind Py.result := fun A B k m => Py.bind m k.

(** ** Arrays and the OpenCV interface *)

Module Np.

Definition pixel : Type := Z * Z * Z.
(** An [H x W x 3] byte image, row major. *)
Definition image : Type := list (list pixel).
(** An [H x W] byte mask. *)
Definition mask : Type := list (list Z).

(** [img.shape[:2]] *)
Definition shape (img : image) : Z * Z :=
  (Z.of_nat (length img), Z.of_nat (length (hd [] img))).

(** [np.zeros_like(img)] *)
Definition zeros_like (img : image) : image :=
  map (map (fun _ : pixel => (0, 0, 0))) img.

(** [np.zeros((h, w), dtype=np.uint8)] *)
Definition zeros (h w : Z) : mask :=
  repeat (repeat 0 (Z.to_nat w)) (Z.to_nat h).

(** [a.copy()]: a fresh array with the same content. *)
Definition copy (img : image) : image := img.

(** [np.any(m)] *)
Definition any (m : mask) : bool :=
  existsb (existsb (fun v => negb (v =? 0))) m.

Fixpoint paste_row (dst src : list pixel) (m : list Z) : list pixel :=
  match dst, src, m with
  | d :: dst', s :: src', v :: m' =>
      (if v =? 255 then s else d) :: paste_row dst' src' m'
  | _, _, _ => dst
  end.

(** [dst[m == 255] = src[m == 255]] on arrays of one shape. *)
Fixpoint paste (dst src : image) (m : mask) : image :=
  match dst, src, m with
  | d :: dst', s :: src', v :: m' => paste_row d s v :: paste dst' src' m'
  | _, _, _ => dst
  end.

End Np.

(** The OpenCV calls of [plot_dets] and [letterbox]. Their pixel arithmetic is not part
    of the repository; each is a function that returns the array it
    produced (the in-place ones return the updated argument) or raises
    [cv2.error]. *)
Class Cv2 : Type := {
  GaussianBlur : Np.image -> Q -> Py.result Np.image;
  fillPoly_mask : Np.mask -> list (Z * Z) -> Z -> Py.result Np.mask;
  fillPoly : Np.image -> list (Z * Z) -> Np.pixel -> Py.result Np.image;
  addWeighted : Np.image -> Q -> Np.image -> Q -> Q -> Py.result Np.image;
  rectangle : Np.image -> Z * Z -> Z * Z -> Np.pixel -> Z -> Py.result Np.image;
  getTextSize : string -> Q -> Z -> (Z * Z) * Z;
  putText : Np.image -> string -> Z * Z -> Q -> Np.pixel -> Z -> Py.result Np.image;
  (** the pixels of [cv2.resize(img, (width, height),
      interpolation=cv2.INTER_LINEAR)] *)
  interpolate : Np.image -> Z -> Z -> Np.image
}.

(** ** The inference engine, [modules/YoloE.py] *)

Module YoloE.

Import Py.

Definition COLOR_WHEEL : list Np.pixel :=
  [ (255, 0, 0); (0, 255, 0); (0, 0, 255); (255, 255, 0); (255, 0, 255);
    (0, 255, 255); (128, 0, 128); (255, 165, 0); (0, 128, 128); (128, 128, 0) ].

(** [dets.names]: a sequence of class names or a mapping from class
    index to name; [plot_dets] indexes it either way. *)
Inductive names_t : Type :=
| NamesList (l : list string)
| NamesDict (d : gmap Z string).

(** One entry of [dets.masks]: [None] or a mask with its polygon
    [seg.xy]. *)
Definition seg_t : Type := option (list (Q * Q)).

(** A detection result: the fields [plot_dets] reads. [dets.masks]
    is [None] in the result of an image without detections. *)
Record Results : Type := {
  names : names_t;
  boxes_cls : list Q;
  boxes_xyxy : list (Q * Q * Q * Q);
  masks : option (list seg_t)
}.

(** [zip(dets.boxes.cls, dets.boxes.xyxy, dets.masks)]: the
    detections, as the two loops of [plot_dets] enumerate them.
    [zip] raises [TypeError] on an argument that is [None]. *)
Definition zipped (dets : Results) : result (list (Q * (Q * Q * Q * Q) * seg_t)) :=
  match masks dets with
  | Some segs => Ok (zip3 (boxes_cls dets) (boxes_xyxy dets) segs)
  | None => Raise TypeError
  end.

(** Truth value of [classes]. *)
Definition names_truthy (c : names_t) : bool :=
  match c with
  | NamesList l => negb (Nat.eqb (length l) 0)
  | NamesDict d => negb (Nat.eqb (size d) 0)
  end.

(** [classes[i]] *)
Definition names_index (c : names_t) (i : Z) : result string :=
  match c with
  | NamesList l =>
      let n := Z.of_nat (length l) in
      let j := if i <? 0 then i + n else i in
      if (j <? 0) || (n <=? j) then Raise IndexError
      else match nth_error l (Z.to_nat j) with
           | Some s => Ok s
           | None => Raise IndexError
           end
  | NamesDict d =>
      match d !! i with
      | Some s => Ok s
      | None => Raise KeyError
      end
  end.

(** [classes[int(cls_idx)] if classes else str(int(cls_idx))] *)
Definition class_name_of (classes : names_t) (cls_idx : Q) : result string :=
  if names_truthy classes then names_index classes (int cls_idx)
  else Ok (pretty (int cls_idx)).

(** [filter is not None and class_name not in filter] *)
Definition filtered_out (filter : option (list string)) (class_name : string) : bool :=
  match filter with
  | None => false
  | Some f => negb (bool_decide (class_name ∈ f))
  end.

(** [COLOR_WHEEL[int(cls_idx) % len(COLOR_WHEEL)]] *)
Definition wheel_color (cls_idx : Q) : Np.pixel :=
  nth (Z.to_nat (int cls_idx mod Z.of_nat (length COLOR_WHEEL))) COLOR_WHEEL (0, 0, 0).

(** [np.asarray(seg.xy, dtype=np.int32)] *)
Definition as_int32 (xy : list (Q * Q)) : list (Z * Z) :=
  map (fun p => (int (fst p), int (snd p))) xy.

Section Render.

Context `{cv : Cv2}.

(** One iteration of the loop of step 3: the union mask and the
    tint overlay. *)
Definition mask_step (classes : names_t) (filter : option (list string))
    (do_seg : bool) (acc : Np.mask * Np.image)
    (d : Q * (Q * Q * Q * Q) * seg_t) : result (Np.mask * Np.image) :=
  let '(cls_idx, _, seg) := d in
  let '(mask_all, overlay) := acc in
  class_name ← class_name_of classes cls_idx;
  if filtered_out filter class_name then Ok acc
  else match seg with
       | None => Ok acc
       | Some xy =>
           let poly := as_int32 xy in
           mask_all' ← fillPoly_mask mask_all poly 255;
           if do_seg then
             overlay' ← fillPoly overlay poly (wheel_color cls_idx);
             Ok (mask_all', overlay')
           else Ok (mask_all', overlay)
       end.

(** One iteration of the loop of step 5: the box and the label. *)
Definition draw_step (classes : names_t) (filter : option (list string))
    (do_det do_label : bool) (h w : Z) (res : Np.image)
    (d : Q * (Q * Q * Q * Q) * seg_t) : result Np.image :=
  let '(cls_idx, xyxy, _) := d in
  class_name ← class_name_of classes cls_idx;
  if filtered_out filter class_name then Ok res
  else
    let '(qx1, qy1, qx2, qy2) := xyxy in
    let '(x1, y1, x2, y2) := (int qx1, int qy1, int qx2, int qy2) in
    let '(cx, cy) := ((x1 + x2) / 2, (y1 + y2) / 2) in
    let color := wheel_color cls_idx in
    res1 ← (if do_det then rectangle res (x1, y1) (x2, y2) color 2 else Ok res);
    if do_label then
      let '((tw, th), baseline) := getTextSize class_name (7 # 10) 2 in
      let text_x := Z.max (Z.min (cx - tw / 2) (w - tw)) 0 in
      let text_y := Z.max (Z.min (cy + th / 2) (h - baseline)) th in
      res2 ← putText res1 class_name (text_x, text_y) (7 # 10) (0, 0, 0) 3;
      putText res2 class_name (text_x, text_y) (7 # 10) color 1
    else Ok res1.

(** [YoloE.plot_dets]. [alpha] and [blur_sigma] are numbers;
    [blur_sigma] may be [None]. *)
Definition plot_dets (img : Np.image) (dets : Results)
    (filter : option (list string))
    (do_seg do_det do_label remove_background do_blur : bool)
    (alpha : Q) (blur_sigma : option Q) : result Np.image :=
  let classes := names dets in
  let '(h, w) := Np.shape img in
  let overlay := Np.zeros_like img in
  let mask_all := Np.zeros h w in
  if remove_background && do_blur then
    Raise (ValueError "remove_background and do_blur cannot both be True.")
  else
    let sigma := match blur_sigma with Some v => v | None => 0%Q end in
    base ← (if remove_background then Ok (Np.zeros_like img)
            else if do_blur && lt 0 sigma then GaussianBlur img sigma
            else Ok img);
    let res := Np.copy base in
    detections ← zipped dets;
    acc ← foldM (mask_step classes filter do_seg) (mask_all, overlay) detections;
    let '(mask_all, overlay) := acc in
    res ← (if Np.any mask_all then
              if do_seg then
                blended_region ← addWeighted img (1 - alpha) overlay alpha 0;
                Ok (Np.paste res blended_region mask_all)
              else Ok (Np.paste res img mask_all)
            else Ok res);
    if do_det || do_label then
      detections ← zipped dets;
      foldM (draw_step classes filter do_det do_label h w) res detections
    else Ok res.

End Render.

(** *** Letterboxing *)

Section Letterbox.

Context `{cv : Cv2}.

(** [cv2.resize(frame, (new_width, new_height),
    interpolation=cv2.INTER_LINEAR)]; OpenCV refuses an empty source
    and an empty target. *)
Definition cv2_resize (frame : Np.image) (new_width new_height : Z)
  : result Np.image :=
  let '(height, width) := Np.shape frame in
  if (height <=? 0) || (width <=? 0) || (new_width <=? 0) || (new_height <=? 0)
  then Raise Cv2Error
  else Ok (interpolate frame new_width new_height).

(** [cv2.copyMakeBorder(img, top, bottom, left, right,
    borderType=cv2.BORDER_CONSTANT, value=(0, 0, 0))]; OpenCV refuses
    a negative border. *)
Definition copyMakeBorder (img : Np.image) (top bottom left right : Z)
  : result Np.image :=
  if (top <? 0) || (bottom <? 0) || (left <? 0) || (right <? 0) then Raise Cv2Error
  else
    let black : Np.pixel := (0, 0, 0) in
    let width := snd (Np.shape img) in
    let blank := repeat black (Z.to_nat (left + width + right)) in
    Ok (repeat blank (Z.to_nat top)
        ++ map (fun row => repeat black (Z.to_nat left) ++ row
                           ++ repeat black (Z.to_nat right)) img
        ++ repeat blank (Z.to_nat bottom)).

(** [letterbox(frame, img_size)]: the padded square and the paddings
    (left, top, right, bottom). The scale and the scaled sides are
    floats; the sides of an array and [img_size] are below [2^63]. *)
Definition letterbox (frame : Np.image) (img_size : Z)
  : result (Np.image * (Z * Z * Z * Z)) :=
  let '(height, width) := Np.shape frame in
  if Z.max height width =? 0 then Raise ZeroDivisionError
  else
    let scale :=
      PrimFloat.div (float_of_int img_size) (float_of_int (Z.max height width)) in
    new_width ← int_of_float (PrimFloat.mul (float_of_int width) scale);
    new_height ← int_of_float (PrimFloat.mul (float_of_int height) scale);
    resized_frame ← cv2_resize frame new_width new_height;
    let pad_top := (img_size - new_height) / 2 in
    let pad_bottom := img_size - new_height - pad_top in
    let pad_left := (img_size - new_width) / 2 in
    let pad_right := img_size - new_width - pad_left in
    letterboxed ← copyMakeBorder resized_frame pad_top pad_bottom pad_left pad_right;
    Ok (letterboxed, (pad_left, pad_top, pad_right, pad_bottom)).

End Letterbox.

(** *** Bounded queues ([queue.Queue]) *)

Module Queue.

Record t (A : Type) : Type := mk { maxsize : nat; items : list A }.
Arguments mk {A} maxsize items.
Arguments maxsize {A} _.
Arguments items {A} _.

(** What a queue call does when no other thread acts while it
    runs: it completes, raises [Full]/[Empty], or waits forever. *)
Inductive outcome (A : Type) : Type :=
| Done (a : A)
| Fails (e : exn)
| Waits.
Arguments Done {A} a.
Arguments Fails {A} e.
Arguments Waits {A}.

Definition empty {A} (q : t A) : bool :=
  match items q with [] => true | _ => false end.

(** [maxsize <= 0] means unbounded. *)
Definition full {A} (q : t A) : bool :=
  (0 <? maxsize q)%nat && (maxsize q <=? length (items q))%nat.

(** What [put] and [get] raise for a negative [timeout]. *)
Definition negative_timeout : exn :=
  ValueError "'timeout' must be a non-negative number".

(** [q.put(x, block, timeout)]. A bounded queue looks at [block] and
    [timeout] before it looks at its content: a blocking call with a
    negative timeout raises [ValueError] whether there is room or
    not. *)
Definition put {A} (q : t A) (x : A) (block : bool) (timeout : option Q)
  : outcome (t A) :=
  let appended := Done (mk (maxsize q) (items q ++ [x])) in
  if (0 <? maxsize q)%nat then
    if negb block then
      if full q then Fails QueueFull else appended
    else match timeout with
         | None => if full q then Waits else appended
         | Some seconds =>
             if lt seconds 0 then Fails negative_timeout
             else if full q then Fails QueueFull else appended
         end
  else appended.

(** [q.get(block, timeout)]; a blocking call with a negative timeout
    raises [ValueError] whether an item is ready or not. *)
Definition get {A} (q : t A) (block : bool) (timeout : option Q)
  : outcome (A * t A) :=
  let taken :=
    match items q with
    | x :: rest => Some (x, mk (maxsize q) rest)
    | [] => None
    end in
  if negb block then
    match taken with Some r => Done r | None => Fails QueueEmpty end
  else match timeout with
       | None => match taken with Some r => Done r | None => Waits end
       | Some seconds =>
           if lt seconds 0 then Fails negative_timeout
           else match taken with Some r => Done r | None => Fails QueueEmpty end
       end.

End Queue.

(** *** The engine object *)

Record BBox : Type := {
  cls : string;
  bbox : list (Z * Z * Z * Z)
}.

Record AnnotatedFrame : Type := mkAnnotatedFrame {
  image : Np.image;
  num_detections : Z;
  detections : list BBox
}.

(** [AnnotatedFrame(image)]: the other fields take their defaults. *)
Definition AnnotatedFrame_of (img : Np.image) : AnnotatedFrame :=
  mkAnnotatedFrame img 0 [].

Record Framedata : Type := {
  orig_frame : Np.image;
  fd_do_seg : bool;
  fd_do_det : bool;
  fd_do_label : bool;
  fd_rm_background : bool;
  fd_do_blur : bool
}.

(** What [setup_predictor] builds: a segmentation predictor for a
    class list and thresholds. *)
Record Predictor : Type := {
  p_classes : list string;
  p_imgsz : Z;
  p_conf : Q;
  p_iou : Q
}.

(** The accelerator handle of [connect_accl], with the class list of
    the post-processing model it was given ([None]: no such file). *)
Record Accl : Type := { accl_post : option (list string) }.

(** The detector and its tensors are not part of the repository. *)
Class Runtime : Type := {
  Tensor : Type;
  (** the resize, scaling and transposition [_data_source] applies to
      the letterboxed frame *)
  preprocess : Np.image -> Tensor;
  (** [predictor.postprocess(preds, placeholder, [orig_frame])] *)
  postprocess : Predictor -> list Tensor -> Np.image -> result (list Results)
}.

Definition _img_size : Z := 640.

(** The attributes of a [YoloE] object. Console output is not
    modelled. *)
Record t : Type := mk {
  _conf : Q;
  _iou : Q;
  _darkness : Q;
  classes : list string;
  _selected_classes : list string;
  yoloe : list string;
  _accl : option Accl;
  do_seg : bool;
  do_det : bool;
  do_label : bool;
  rm_background : bool;
  do_blur : bool;
  _blur_sigma : Q;
  input_q : Queue.t (option Framedata);
  middle_q : Queue.t Np.image;
  output_q : Queue.t AnnotatedFrame;
  _predictor : Predictor;
  _outstanding_frames : Z;
  _stopped : bool
}.

Definition with_darkness (s : t) (v : Q) : t :=
  mk (_conf s) (_iou s) v (classes s) (_selected_classes s) (yoloe s) (_accl s)
     (do_seg s) (do_det s) (do_label s) (rm_background s) (do_blur s) (_blur_sigma s)
     (input_q s) (middle_q s) (output_q s) (_predictor s) (_outstanding_frames s)
     (_stopped s).
Definition with_blur_sigma (s : t) (v : Q) : t :=
  mk (_conf s) (_iou s) (_darkness s) (classes s) (_selected_classes s) (yoloe s) (_accl s)
     (do_seg s) (do_det s) (do_label s) (rm_background s) (do_blur s) v
     (input_q s) (middle_q s) (output_q s) (_predictor s) (_outstanding_frames s)
     (_stopped s).
Definition with_classes (s : t) (v : list string) : t :=
  mk (_conf s) (_iou s) (_darkness s) v (_selected_classes s) (yoloe s) (_accl s)
     (do_seg s) (do_det s) (do_label s) (rm_background s) (do_blur s) (_blur_sigma s)
     (input_q s) (middle_q s) (output_q s) (_predictor s) (_outstanding_frames s)
     (_stopped s).
Definition with_selected_classes (s : t) (v : list string) : t :=
  mk (_conf s) (_iou s) (_darkness s) (classes s) v (yoloe s) (_accl s)
     (do_seg s) (do_det s) (do_label s) (rm_background s) (do_blur s) (_blur_sigma s)
     (input_q s) (middle_q s) (output_q s) (_predictor s) (_outstanding_frames s)
     (_stopped s).
Definition with_yoloe (s : t) (v : list string) : t :=
  mk (_conf s) (_iou s) (_darkness s) (classes s) (_selected_classes s) v (_accl s)
     (do_seg s) (do_det s) (do_label s) (rm_background s) (do_blur s) (_blur_sigma s)
     (input_q s) (middle_q s) (output_q s) (_predictor s) (_outstanding_frames s)
     (_stopped s).
Definition with_accl (s : t) (v : option Accl) : t :=
  mk (_conf s) (_iou s) (_darkness s) (classes s) (_selected_classes s) (yoloe s) v
     (do_seg s) (do_det s) (do_label s) (rm_background s) (do_blur s) (_blur_sigma s)
     (input_q s) (middle_q s) (output_q s) (_predictor s) (_outstanding_frames s)
     (_stopped s).
Definition with_flags (s : t) (d : Framedata) : t :=
  mk (_conf s) (_iou s) (_darkness s) (classes s) (_selected_classes s) (yoloe s) (_accl s)
     (fd_do_seg d) (fd_do_det d) (fd_do_label d) (fd_rm_background d) (fd_do_blur d)
     (_blur_sigma s)
     (input_q s) (middle_q s) (output_q s) (_predictor s) (_outstanding_frames s)
     (_stopped s).
Definition with_input_q (s : t) (v : Queue.t (option Framedata)) : t :=
  mk (_conf s) (_iou s) (_darkness s) (classes s) (_selected_classes s) (yoloe s) (_accl s)
     (do_seg s) (do_det s) (do_label s) (rm_background s) (do_blur s) (_blur_sigma s)
     v (middle_q s) (output_q s) (_predictor s) (_outstanding_frames s)
     (_stopped s).
Definition with_middle_q (s : t) (v : Queue.t Np.image) : t :=
  mk (_conf s) (_iou s) (_darkness s) (classes s) (_selected_classes s) (yoloe s) (_accl s)
     (do_seg s) (do_det s) (do_label s) (rm_background s) (do_blur s) (_blur_sigma s)
     (input_q s) v (output_q s) (_predictor s) (_outstanding_frames s)
     (_stopped s).
Definition with_output_q (s : t) (v : Queue.t AnnotatedFrame) : t :=
  mk (_conf s) (_iou s) (_darkness s) (classes s) (_selected_classes s) (yoloe s) (_accl s)
     (do_seg s) (do_det s) (do_label s) (rm_background s) (do_blur s) (_blur_sigma s)
     (input_q s) (middle_q s) v (_predictor s) (_outstanding_frames s)
     (_stopped s).
Definition with_predictor (s : t) (v : Predictor) : t :=
  mk (_conf s) (_iou s) (_darkness s) (classes s) (_selected_classes s) (yoloe s) (_accl s)
     (do_seg s) (do_det s) (do_label s) (rm_background s) (do_blur s) (_blur_sigma s)
     (input_q s) (middle_q s) (output_q s) v (_outstanding_frames s)
     (_stopped s).
Definition with_outstanding_frames (s : t) (v : Z) : t :=
  mk (_conf s) (_iou s) (_darkness s) (classes s) (_selected_classes s) (yoloe s) (_accl s)
     (do_seg s) (do_det s) (do_label s) (rm_background s) (do_blur s) (_blur_sigma s)
     (input_q s) (middle_q s) (output_q s) (_predictor s) v
     (_stopped s).
Definition with_stopped (s : t) (v : bool) : t :=
  mk (_conf s) (_iou s) (_darkness s) (classes s) (_selected_classes s) (yoloe s) (_accl s)
     (do_seg s) (do_det s) (do_label s) (rm_background s) (do_blur s) (_blur_sigma s)
     (input_q s) (middle_q s) (output_q s) (_predictor s) (_outstanding_frames s)
     v.

(** How a method call ends when no other thread acts while it runs:
    it returns a value, raises, or stays parked on a queue. *)
Inductive outcome (A : Type) : Type :=
| Returns (a : A) (s : t)
| Raises (e : exn) (s : t)
| Blocks.
Arguments Returns {A} a s.
Arguments Raises {A} e s.
Arguments Blocks {A}.

(** *** Property setters *)

(** [darkness.setter] *)
Definition set_darkness (s : t) (val : Q) : outcome unit :=
  if lt val 0 || lt 1 val then Returns tt s
  else Returns tt (with_darkness s val).

(** [blur_sigma.setter] *)
Definition set_blur_sigma (s : t) (val : Q) : outcome unit :=
  if lt val 0 then Returns tt s
  else Returns tt (with_blur_sigma s val).

(** The loop of [selected_classes.setter]: [true] when it reaches a
    name that is not in [self.classes]. *)
Fixpoint has_invalid_class (known : list string) (cs : list string) : bool :=
  match cs with
  | [] => false
  | clas :: cs' =>
      if bool_decide (clas ∈ known) then has_invalid_class known cs' else true
  end.

(** [selected_classes.setter] *)
Definition set_selected_classes (s : t) (cs : list string) : outcome unit :=
  if has_invalid_class (classes s) cs then Returns tt s
  else Returns tt (with_selected_classes s cs).

(** *** Submitting and receiving *)

(** [YoloE.put]; the body runs under [_stop_lock]. *)
Definition put (s : t) (data : option Framedata) (block : bool)
    (timeout : option Q) : outcome unit :=
  if _stopped s then Returns tt s
  else match Queue.put (input_q s) data block timeout with
       | Queue.Done q =>
           Returns tt (with_outstanding_frames (with_input_q s q)
                                               (_outstanding_frames s + 1))
       | Queue.Fails e => Raises e s
       | Queue.Waits => Blocks
       end.

(** [YoloE.get] *)
Definition get (s : t) (block : bool) (timeout : option Q)
  : outcome AnnotatedFrame :=
  match Queue.get (output_q s) block timeout with
  | Queue.Done (annotated_frame, q) =>
      Returns annotated_frame
              (with_outstanding_frames (with_output_q s q)
                                       (_outstanding_frames s - 1))
  | Queue.Fails e => Raises e s
  | Queue.Waits => Blocks
  end.

(** One turn of the drain loop of [stop]:
    [try: self.get(timeout=0.1) except queue.Empty: continue]. *)
Definition drain_turn (s : t) : outcome unit :=
  match get s true (Some (1 # 10)%Q) with
  | Returns _ s' => Returns tt s'
  | Raises QueueEmpty s' => Returns tt s'
  | Raises e s' => Raises e s'
  | Blocks => Blocks
  end.

(** [while self._outstanding_frames > 0: ...], at most [fuel] turns. *)
Fixpoint drain (fuel : nat) (s : t) : option (outcome unit) :=
  if 0 <? _outstanding_frames s then
    match fuel with
    | O => None
    | S fuel' =>
        match drain_turn s with
        | Returns _ s' => drain fuel' s'
        | other => Some other
        end
    end
  else Some (Returns tt s).

(** The end of [stop]: [self.input_q.put(None); self._stopped = True]. *)
Definition stop_finish (s : t) : outcome unit :=
  match Queue.put (input_q s) None true None with
  | Queue.Done q => Returns tt (with_stopped (with_input_q s q) true)
  | Queue.Fails e => Raises e s
  | Queue.Waits => Blocks
  end.

(** [YoloE.stop], run with no other thread acting. [None]: the drain
    loop did not end within [fuel] turns. *)
Definition stop (fuel : nat) (s : t) : option (outcome unit) :=
  if _stopped s then Some (Returns tt s)
  else match drain fuel s with
       | Some (Returns _ s') => Some (stop_finish s')
       | other => other
       end.

(** [self.selected_classes = v] inside a method: the setter's effect. *)
Definition assign_selected_classes (s : t) (v : list string) : t :=
  match set_selected_classes s v with
  | Returns _ s' => s'
  | _ => s
  end.

(** [setup_predictor(self.yoloe, imgsz=.., conf=.., iou=.., classes=cs)]
    followed by the assignment to [self._predictor];
    [setup_predictor] sets the classes of the model first. *)
Definition assign_predictor (s : t) (cs : list string) : t :=
  with_predictor (with_yoloe s cs)
    {| p_classes := cs; p_imgsz := _img_size; p_conf := _conf s; p_iou := _iou s |}.

Section Callbacks.

Context `{cv : Cv2} `{rt : Runtime}.

(** [YoloE._data_source], the accelerator's input callback. An
    exception of [letterbox] leaves it after the frame was taken from
    the input queue and before it is put on the middle queue.
    [self._pads], which no modelled method reads, is not kept. *)
Definition _data_source (s : t) : outcome (option Tensor) :=
  match Queue.get (input_q s) true None with
  | Queue.Done (data, q) =>
      let s := with_input_q s q in
      match data with
      | None => Returns None s
      | Some data =>
          let s := with_flags s data in
          match letterbox (orig_frame data) _img_size with
          | Raise e => Raises e s
          | Ok (padded_image, _) =>
              match Queue.put (middle_q s) (orig_frame data) true None with
              | Queue.Done mq =>
                  Returns (Some (preprocess padded_image)) (with_middle_q s mq)
              | Queue.Fails e => Raises e s
              | Queue.Waits => Blocks
              end
          end
      end
  | Queue.Fails e => Raises e s
  | Queue.Waits => Blocks
  end.

(** [self.output_q.put(AnnotatedFrame(img))] *)
Definition emit (s : t) (img : Np.image) : outcome unit :=
  match Queue.put (output_q s) (AnnotatedFrame_of img) true None with
  | Queue.Done q => Returns tt (with_output_q s q)
  | Queue.Fails e => Raises e s
  | Queue.Waits => Blocks
  end.

(** The rendering call of [_data_sink]. *)
Definition render (s : t) (orig_frame : Np.image) (dets : Results)
  : result Np.image :=
  plot_dets orig_frame dets (Some (_selected_classes s))
            (do_seg s) (do_det s) (do_label s) (rm_background s) (do_blur s)
            (_darkness s) (Some (_blur_sigma s)).

(** [YoloE._data_sink], the accelerator's output callback. The
    indexing of [outputs] and the post-processing come before [try];
    [dets[0]], the rendering and the first [put] are inside it. *)
Definition _data_sink (s : t) (outputs : list Tensor) : outcome unit :=
  match Queue.get (middle_q s) true None with
  | Queue.Done (orig_frame, mq) =>
      let s := with_middle_q s mq in
      match outputs with
      | o0 :: o1 :: _ =>
          match postprocess (_predictor s) [o1; o0] orig_frame with
          | Ok (dets0 :: _) =>
              match render s orig_frame dets0 with
              | Ok annotated_frame => emit s annotated_frame
              | Raise _ => emit s orig_frame
              end
          | Ok [] =>
              (* [dets[0]] is evaluated inside [try] *)
              emit s orig_frame
          | Raise e => Raises e s
          end
      | _ => Raises IndexError s
      end
  | Queue.Fails e => Raises e s
  | Queue.Waits => Blocks
  end.

End Callbacks.

(** *** Reconfiguration among the other threads

    [update_classes] runs while the producer ([put]), the consumer
    ([get]) and the accelerator's callbacks ([_data_source],
    [_data_sink]) may run too, and nothing keeps a second thread from
    calling [update_classes] before the first call has returned. The
    threads are interleaved at the granularity of the statements of
    [update_classes] and [stop]; the bodies of the other methods are
    atomic. *)

(** The model files [update_classes] handles, each with the class
    list it was built for ([None]: the file does not exist). *)
Record Files : Type := {
  cwd_onnx : option (list string);
  cwd_post : option (list string);
  assets_post : option (list string)
}.

(** Where a thread inside [update_classes(cs)] stands: before the
    test [if self._stopped] of [stop], before [with self._stop_lock],
    in the drain loop, and so on. From [AtMove] on it carries whether
    the compiler left its post-processing file for this call. *)
Inductive pc : Type :=
| Idle
| AtStop (cs : list string)
| AtLock (cs : list string)
| AtDrain (cs : list string)
| AtSentinel (cs : list string)
| AtSetClasses (cs : list string)
| AtPredictor (cs : list string)
| AtClasses (cs : list string)
| AtSelected (cs : list string)
| AtExport (cs : list string)
| AtCompile (cs : list string)
| AtMove (cs : list string) (delivered : bool)
| AtConnect (cs : list string) (delivered : bool)
| AtResume (cs : list string) (delivered : bool)
| Returned (cs : list string) (delivered : bool)
| Crashed (e : exn).

(** [_stop_lock] is held inside [with self._stop_lock] of [stop]. *)
Definition lock_held (c : pc) : bool :=
  match c with
  | AtDrain _ | AtSentinel _ => true
  | _ => false
  end.

(** The call has ended, by returning or with an exception (or has
    not begun). *)
Definition finished (c : pc) : bool :=
  match c with
  | Idle | Returned _ _ | Crashed _ => true
  | _ => false
  end.

(** The statements of [update_classes] after [self.stop()] and
    before the accelerator is released again. *)
Definition rebuilding (c : pc) : bool :=
  match c with
  | AtSetClasses _ | AtPredictor _ | AtClasses _ | AtSelected _ | AtExport _
  | AtCompile _ | AtMove _ _ | AtConnect _ _ | AtResume _ _ => true
  | _ => false
  end.

(** The engine and the model files as one caller of
    [update_classes] sees them, with the place where that caller
    stands. *)
Record sys : Type := mkSys {
  eng : t;
  files : Files;
  ctl : pc
}.

(** The engine and the model files among all the threads that have
    called [update_classes] so far, oldest first. *)
Record threads : Type := mkThreads {
  engine : t;
  disk : Files;
  callers : list pc
}.

(** No caller is inside [with self._stop_lock]. *)
Definition lock_free (cs : list pc) : bool :=
  forallb (fun c => negb (lock_held c)) cs.

(** The next statement of a caller takes [_stop_lock]: the [with]
    of [stop] and the one of [connect_accl]. *)
Definition takes_lock (c : pc) : bool :=
  match c with
  | AtLock _ | AtResume _ _ => true
  | _ => false
  end.

(** What an external tool (the model export, the compiler, the
    accelerator driver) does when called: it does its work, or it
    raises. [Silent] is the compiler returning without having left its
    post-processing file; for the other tools it is the same as
    [Delivers]. *)
Inductive ext : Type :=
| Delivers
| Silent
| Throws.

Section Threads.

Context `{cv : Cv2} `{rt : Runtime}.

(** What a thread does next: a call of [put], [get] or of a
    callback of the accelerator; a new call of [update_classes]; the
    next statement of the caller number [i], during which the
    external tool it may call does [x]. *)
Inductive action : Type :=
| Put (data : option Framedata) (block : bool) (timeout : option Q)
| Get (block : bool) (timeout : option Q)
| Source
| Sink (outputs : list Tensor)
| Update (cs : list string)
| Advance (i : nat) (x : ext).

(** A method call as a step: not enabled while the call would stay
    parked. *)
Definition after {A} (p : threads) (o : outcome A) : option threads :=
  match o with
  | Returns _ e => Some (mkThreads e (disk p) (callers p))
  | Raises _ e => Some (mkThreads e (disk p) (callers p))
  | Blocks => None
  end.

(** The next statement of a thread inside [update_classes]. *)
Definition advance (x : ext) (s : sys) : option sys :=
  let e := eng s in
  let f := files s in
  match ctl s with
  | Idle | Returned _ _ | Crashed _ => None
  | AtStop cs =>
      (* stop(): [if self._stopped: return] *)
      if _stopped e then Some (mkSys e f (AtSetClasses cs))
      else Some (mkSys e f (AtLock cs))
  | AtLock cs =>
      (* [with self._stop_lock:] *)
      Some (mkSys e f (AtDrain cs))
  | AtDrain cs =>
      if 0 <? _outstanding_frames e then
        match drain_turn e with
        | Returns _ e' => Some (mkSys e' f (AtDrain cs))
        | Raises err e' => Some (mkSys e' f (Crashed err))
        | Blocks => None
        end
      else Some (mkSys e f (AtSentinel cs))
  | AtSentinel cs =>
      match stop_finish e with
      | Returns _ e' => Some (mkSys e' f (AtSetClasses cs))
      | Raises err e' => Some (mkSys e' f (Crashed err))
      | Blocks => None
      end
  | AtSetClasses cs =>
      (* self.yoloe.set_classes(classes, self.yoloe.get_text_pe(classes)) *)
      match x with
      | Throws => Some (mkSys e f (Crashed (RuntimeError "set_classes")))
      | _ => Some (mkSys (with_yoloe e cs) f (AtPredictor cs))
      end
  | AtPredictor cs => Some (mkSys (assign_predictor e cs) f (AtClasses cs))
  | AtClasses cs => Some (mkSys (with_classes e cs) f (AtSelected cs))
  | AtSelected cs => Some (mkSys (assign_selected_classes e cs) f (AtExport cs))
  | AtExport cs =>
      (* self.yoloe.export(imgsz=.., simplify=True, format='onnx') *)
      match x with
      | Throws => Some (mkSys e f (Crashed (RuntimeError "export")))
      | _ => Some (mkSys e {| cwd_onnx := Some (yoloe e); cwd_post := cwd_post f;
                              assets_post := assets_post f |} (AtCompile cs))
      end
  | AtCompile cs =>
      (* nc = memryx.NeuralCompiler(..); nc.load() *)
      match x with
      | Throws => Some (mkSys e f (Crashed (RuntimeError "compile")))
      | Delivers =>
          Some (mkSys e {| cwd_onnx := cwd_onnx f; cwd_post := cwd_onnx f;
                           assets_post := assets_post f |} (AtMove cs true))
      | Silent => Some (mkSys e f (AtMove cs false))
      end
  | AtMove cs d =>
      (* if post_onnx_path.exists(): shutil.move(..) else: print(warning) *)
      match cwd_post f with
      | Some m => Some (mkSys e {| cwd_onnx := cwd_onnx f; cwd_post := None;
                                   assets_post := Some m |} (AtConnect cs d))
      | None => Some (mkSys e f (AtConnect cs d))
      end
  | AtConnect cs d =>
      (* connect_accl(): the new accelerator, its post-processing
         model and its two callbacks *)
      match x with
      | Throws => Some (mkSys e f (Crashed (RuntimeError "connect")))
      | _ => Some (mkSys (with_accl e (Some {| accl_post := assets_post f |})) f
                         (AtResume cs d))
      end
  | AtResume cs d =>
      (* with self._stop_lock: self._stopped = False *)
      Some (mkSys (with_stopped e false) f (Returned cs d))
  end.

(** One step of the program. [put] and the statements that take
    [_stop_lock] wait while a caller is inside [with
    self._stop_lock]. (A [put] parked on a full input queue keeps the
    lock in the program; here a parked call has not begun, so the
    steps of the program are among those below.) *)
Definition step (a : action) (p : threads) : option threads :=
  match a with
  | Put data block timeout =>
      if lock_free (callers p) then after p (put (engine p) data block timeout)
      else None
  | Get block timeout => after p (get (engine p) block timeout)
  | Source => after p (_data_source (engine p))
  | Sink outputs => after p (_data_sink (engine p) outputs)
  | Update cs => Some (mkThreads (engine p) (disk p) (callers p ++ [AtStop cs]))
  | Advance i x =>
      match callers p !! i with
      | Some c =>
          if takes_lock c && negb (lock_free (callers p)) then None
          else match advance x (mkSys (engine p) (disk p) c) with
               | Some s' =>
                   Some (mkThreads (eng s') (files s') (<[i := ctl s']> (callers p)))
               | None => None
               end
      | None => None
      end
  end.

Fixpoint run (acts : list action) (p : threads) : option threads :=
  match acts with
  | [] => Some p
  | a :: acts' =>
      match step a p with
      | Some p' => run acts' p'
      | None => None
      end
  end.

(** No call of [update_classes] begins before the calls before it
    have ended. *)
Fixpoint one_at_a_time (acts : list action) (p : threads) : bool :=
  match acts with
  | [] => true
  | a :: acts' =>
      match a with
      | Update _ => forallb finished (callers p)
      | _ => true
      end
      && match step a p with
         | Some p' => one_at_a_time acts' p'
         | None => true
         end
  end.

(** The statements of a running [update_classes], one after the
    other with no other thread acting; [tools] tells what the
    external tool called at a statement does. [None]: they do not
    end within [fuel] steps, or one of them waits forever. *)
Fixpoint advance_all (fuel : nat) (tools : pc -> ext) (s : sys) : option sys :=
  match ctl s with
  | Idle | Returned _ _ | Crashed _ => Some s
  | c =>
      match fuel with
      | O => None
      | S fuel' =>
          match advance (tools c) s with
          | Some s' => advance_all fuel' tools s'
          | None => None
          end
      end
  end.

(** [YoloE.update_classes(cs)] called by a thread that is not inside
    it, and run with no other thread acting. *)
Definition update_classes (fuel : nat) (tools : pc -> ext) (s : sys)
    (cs : list string) : option sys :=
  if finished (ctl s) then advance_all fuel tools (mkSys (eng s) (files s) (AtStop cs))
  else None.

End Threads.

(** [YoloE.__init__] with [connect_accl] done: the engine as its
    clients first see it. [disk] is what the model directory holds. *)
Definition init (class_names : list string) (disk : Files) : sys :=
  mkSys
    (mk (25 # 100) (7 # 10) (3 # 10) class_names class_names class_names
        (Some {| accl_post := assets_post disk |})
        true true true false false 0%Q
        (Queue.mk 1 []) (Queue.mk 2 []) (Queue.mk 1 [])
        {| p_classes := class_names; p_imgsz := _img_size;
           p_conf := 25 # 100; p_iou := 7 # 10 |}
        0 false)
    disk Idle.

(** The program before any call of [update_classes]. *)
Definition start (class_names : list string) (files : Files) : threads :=
  mkThreads (eng (init class_names files)) files [].

(** The frames inside the pipeline: submitted and not yet received. *)
Definition in_flight (e : t) : nat :=
  (length (omap id (Queue.items (input_q e)))
   + length (Queue.items (middle_q e))
   + length (Queue.items (output_q e)))%nat.

(** *** Other methods and attribute assignments *)

(** [YoloE.empty] *)
Definition empty (s : t) : bool :=
  Queue.empty (output_q s) && Queue.empty (input_q s).

(** [yoloe._conf = v] and [yoloe._iou = v], as the scripts assign them. *)
Definition with_conf (s : t) (v : Q) : t :=
  mk v (_iou s) (_darkness s) (classes s) (_selected_classes s) (yoloe s) (_accl s)
     (do_seg s) (do_det s) (do_label s) (rm_background s) (do_blur s) (_blur_sigma s)
     (input_q s) (middle_q s) (output_q s) (_predictor s) (_outstanding_frames s)
     (_stopped s).
Definition with_iou (s : t) (v : Q) : t :=
  mk (_conf s) v (_darkness s) (classes s) (_selected_classes s) (yoloe s) (_accl s)
     (do_seg s) (do_det s) (do_label s) (rm_background s) (do_blur s) (_blur_sigma s)
     (input_q s) (middle_q s) (output_q s) (_predictor s) (_outstanding_frames s)
     (_stopped s).

End YoloE.

(** ** The monitoring application, [img-search.py] *)

Module Demo.

Import Py.

(** *** Alerts *)

(** A live track as the alert logic reads it. *)
Record TrackedObject : Type := {
  track_id : Z;
  name : string
}.

(** The methods of [Demo] that are connected to a timer. *)
Inductive Slot : Type :=
| ClearAlert.

(** A [QTimer]: whether it is single-shot, the slots connected to
    its [timeout] signal, and the interval it runs with ([None]: it is
    not active). *)
Record QTimer : Type := {
  singleShot : bool;
  connected : list Slot;
  active : option Z
}.

(** [QTimer(self)] *)
Definition QTimer_new : QTimer :=
  {| singleShot := false; connected := []; active := None |}.

(** [timer.timeout.connect(slot)] *)
Definition connect (timer : QTimer) (slot : Slot) : QTimer :=
  {| singleShot := singleShot timer; connected := connected timer ++ [slot];
     active := active timer |}.

(** [timer.setSingleShot(b)] *)
Definition setSingleShot (timer : QTimer) (b : bool) : QTimer :=
  {| singleShot := b; connected := connected timer; active := active timer |}.

(** [timer.start(msec)]: starts the timer, or restarts it when it is
    running. *)
Definition start (timer : QTimer) (msec : Z) : QTimer :=
  {| singleShot := singleShot timer; connected := connected timer;
     active := Some msec |}.

(** [timer.stop()] *)
Definition stop (timer : QTimer) : QTimer :=
  {| singleShot := singleShot timer; connected := connected timer;
     active := None |}.

(** The alert attributes of [Demo]. [alert_label] is the text of the
    label widget. [alerts] records the argument of every call of
    [trigger_security_alert], oldest first. *)
Record t : Type := mk {
  target_name : option string;
  search_targets : gset string;
  last_found_persons : gset Z;
  alert_active : bool;
  alert_label : string;
  alert_timer : QTimer;
  alerts : list string
}.

Definition newline : string := String (Ascii.ascii_of_nat 10) EmptyString.

(** [Demo.trigger_security_alert] *)
Definition trigger_security_alert (s : t) (person_name : string) : t :=
  mk (target_name s) (search_targets s) (last_found_persons s)
     true
     ("TARGET DETECTED:" +:+ newline +:+ person_name)
     (start (alert_timer s) 5000)
     (alerts s ++ [person_name]).




(** Truth value of a string. *)
Definition truthy (x : string) : bool :=
  match x with EmptyString => false | _ => true end.

(** A value that is a string or [None], read as a condition or
    passed on once the condition has held. *)
Definition str_or_none (o : option string) : string := default "" o.

(** [Demo.update_search_targets]; [profile_names] are the keys of
    [face_database.database]. *)
Definition update_search_targets (self : t) (profile_names : gset string) : t :=
  mk (target_name self)
     (if truthy (str_or_none (target_name self))
      then {[ str_or_none (target_name self) ]}
      else profile_names ∖ {[ "Unknown" ]})
     (last_found_persons self) (alert_active self) (alert_label self)
     (alert_timer self) (alerts self).

(** The alert attributes as [Demo.__init__] leaves them: the label
    of [setup_layout], the empty sets, the timer connected to
    [clear_alert] and made single-shot, and the search targets taken
    from the gallery's profile names. *)
Definition init (target : option string) (profile_names : gset string) : t :=
  let alert_timer := setSingleShot (connect QTimer_new ClearAlert) true in
  update_search_targets (mk target ∅ ∅ false "NO ALERTS" alert_timer []) profile_names.

(** The body of the loop of [check_for_search_targets]. *)
Definition check_object (acc : gset Z * t) (obj : TrackedObject) : gset Z * t :=
  let '(current_found_persons, s) := acc in
  if truthy (name obj) && bool_decide (name obj ∈ search_targets s) then
    (current_found_persons ∪ {[track_id obj]},
     if bool_decide (track_id obj ∉ last_found_persons s)
     then trigger_security_alert s (name obj)
     else s)
  else acc.

(** [Demo.check_for_search_targets]; [tracked_objects] is what
    [self.tracker.get_activated_tracker_objects()] returned. *)
Definition check_for_search_targets (s : t) (tracked_objects : list TrackedObject) : t :=
  if bool_decide (search_targets s = ∅) then s
  else
    let '(current_found_persons, s') :=
      fold_left check_object tracked_objects (∅, s) in
    mk (target_name s') (search_targets s') current_found_persons
       (alert_active s') (alert_label s') (alert_timer s') (alerts s').

(** The frames of a stream, evaluated one after the other. *)
Definition check_frames (s : t) (frames : list (list TrackedObject)) : t :=
  fold_left check_for_search_targets frames s.

(** *** Enrollment *)

(** An entry of [tracker.tracker_dict]. *)
Record Entry : Type := {
  e_bbox : Z * Z * Z * Z;
  e_keypoints : list (Z * Z);
  e_name : string;
  e_embedding : option (list Q)
}.

(** What lies outside the [Demo] object: the tracker's shared map,
    the file system (the paths that exist and the images written),
    and the gallery's entries. *)
Record World : Type := mkWorld {
  tracker_dict : gmap Z Entry;
  paths : gset string;
  written : list (string * Np.image);
  database : list (list Q * string)
}.

(** How a call ends: it returns or it raises, and leaves the world
    behind. *)
Inductive call (A : Type) : Type :=
| Returns (a : A) (w : World)
| Raises (e : exn) (w : World).
Arguments Returns {A} a w.
Arguments Raises {A} e w.

Definition world_of {A} (c : call A) : World :=
  match c with
  | Returns _ w => w
  | Raises _ w => w
  end.

Record FaceData : Type := {
  fd_bbox : Z * Z * Z * Z;
  fd_keypoints : list (Z * Z)
}.

(** What the rest of the program and the libraries answer during one
    enrollment call. *)
Record Env : Type := {
  (** the directory [database_viewer.db_path] *)
  db_path : string;
  (** the outcome of [mxface.recognize_put(.., block=True, timeout=10.0)] *)
  recognize_put : result unit;
  (** what each poll of the 10-second loop finds under [track_id] in
      the shared map ([None]: the key is gone); the list ends when
      the time is up *)
  polls : list (option Entry);
  (** [np.linalg.norm(v) > 0], as NumPy computes it in the floating
      point type of [v] *)
  norm_positive : list Q -> bool;
  (** [database_viewer.get_selected_directory()] *)
  selected_directory : option string;
  (** [database_viewer.add_profile()]: the name entered, if any, and
      the paths as the dialog leaves them *)
  add_profile : gset string -> option string * gset string;
  (** whether [cv2.imwrite] manages to write a file of this name; it
      returns [False] when it does not *)
  imwrite_ok : string -> bool
}.

Definition starts_with_slash (x : string) : bool :=
  match x with
  | String c _ => bool_decide (c = "/"%char)
  | EmptyString => false
  end.

Fixpoint ends_with_slash (x : string) : bool :=
  match x with
  | EmptyString => false
  | String c EmptyString => bool_decide (c = "/"%char)
  | String _ rest => ends_with_slash rest
  end.

(** [os.path.join(a, b)] *)
Definition os_path_join (a b : string) : string :=
  if starts_with_slash b then b
  else if negb (truthy a) || ends_with_slash a then a +:+ b
  else a +:+ "/" +:+ b.

(** The components of a path between slashes. *)
Fixpoint split_slash (x : string) (cur : string) : list string :=
  match x with
  | EmptyString => [cur]
  | String c rest =>
      if bool_decide (c = "/"%char) then cur :: split_slash rest ""
      else split_slash rest (cur +:+ String c EmptyString)
  end.

(** The root of a POSIX path: two leading slashes are kept apart
    from one; three or more are one. *)
Definition path_root (p : string) : string :=
  match p with
  | String a (String b (String c _)) =>
      if bool_decide (a = "/"%char) then
        if bool_decide (b = "/"%char) then
          if bool_decide (c = "/"%char) then "/" else "//"
        else "/"
      else ""
  | String a (String b EmptyString) =>
      if bool_decide (a = "/"%char) then
        if bool_decide (b = "/"%char) then "//" else "/"
      else ""
  | String a EmptyString => if bool_decide (a = "/"%char) then "/" else ""
  | EmptyString => ""
  end.

(** [pathlib.Path(p)] up to equality: the root, and the components
    without the empty ones and ["."]. *)
Definition Path (p : string) : string * list string :=
  (path_root p,
   List.filter (fun c => truthy c && negb (bool_decide (c = ".")))
               (split_slash p "")).

(** [f"{i}.jpg"] under [profile_path] *)
Definition numbered (profile_path : string) (i : nat) : string :=
  os_path_join profile_path (pretty i +:+ ".jpg").

(** [i = 0; while os.path.exists(numbered i): i += 1]. A set of [n]
    paths cannot hold more than [n] numbered files, so the test is
    run at most [n] times. *)
Fixpoint first_free (ps : gset string) (profile_path : string) (n i : nat) : nat :=
  match n with
  | O => i
  | S n' =>
      if bool_decide (numbered profile_path i ∈ ps)
      then first_free ps profile_path n' (S i)
      else i
  end.

(** [l[a:b]] for [0 <= a]; a negative [b] counts from the end. *)
Definition slice {A} (l : list A) (a b : Z) : list A :=
  let n := Z.of_nat (length l) in
  let b' := if b <? 0 then Z.max (b + n) 0 else Z.min b n in
  take (Z.to_nat (b' - a)) (drop (Z.to_nat a) l).

(** [image[y0:y1, x0:x1]] *)
Definition crop (image : Np.image) (y0 y1 x0 x1 : Z) : Np.image :=
  map (fun row => slice row x0 x1) (slice image y0 y1).

(** An array without rows or without columns. *)
Definition is_empty (img : Np.image) : bool :=
  (fst (Np.shape img) =? 0) || (snd (Np.shape img) =? 0).

(** [cv2.cvtColor(img, cv2.COLOR_RGB2BGR)]: the first and the third
    channel change places; OpenCV refuses an empty image. *)
Definition cvtColor (img : Np.image) : result Np.image :=
  if is_empty img then Raise Cv2Error
  else Ok (map (map (fun p : Np.pixel => let '(r, g, b) := p in (b, g, r))) img).

(** The reserved identifier of both enrollment paths:
    [track_id = 999  # Special ID for manual uploads]. *)
Definition manual_track_id : Z := 999.

(** The polling loop: the first poll that finds an embedding that is
    not [None] and has a positive norm ends it. *)
Fixpoint poll (env : Env) (ps : list (option Entry)) : option (list Q) :=
  match ps with
  | [] => None
  | found :: ps' =>
      match found with
      | Some obj =>
          match e_embedding obj with
          | Some emb => if norm_positive env emb then Some emb else poll env ps'
          | None => poll env ps'
          end
      | None => poll env ps'
      end
  end.

(** [keypoints[i]] *)
Definition keypoint (ks : list (Z * Z)) (i : nat) : result (Z * Z) :=
  match nth_error ks i with
  | Some k => Ok k
  | None => Raise IndexError
  end.

Definition with_tracker_dict (w : World) (d : gmap Z Entry) : World :=
  mkWorld d (paths w) (written w) (database w).

(** [cv2.imwrite(filename, img)]; the code does not look at what it
    returns. *)
Definition imwrite (env : Env) (w : World) (filename : string) (img : Np.image)
  : World :=
  if imwrite_ok env filename then
    mkWorld (tracker_dict w) (paths w ∪ {[filename]})
            (written w ++ [(filename, img)]) (database w)
  else w.

(** Modelled from the spec: [FaceDatabase.add_to_database] lives in
    [modules/database.py], which is not among the sources; on
    enrollment the gallery is appended to with the new image and its
    embedding. *)
Definition add_to_database (w : World) (embedding : list Q) (filename : string) : World :=
  mkWorld (tracker_dict w) (paths w) (written w)
          (database w ++ [(embedding, filename)]).

(** [if not os.path.exists(p): os.makedirs(p)] (the parents of [p]
    are not tracked). *)
Definition makedirs_if_absent (w : World) (p : string) : World :=
  if bool_decide (p ∈ paths w) then w
  else mkWorld (tracker_dict w) (paths w ∪ {[p]}) (written w) (database w).

(** The numbered image file and the gallery entry: the first free
    index under [profile_path], [cv2.cvtColor], [cv2.imwrite],
    [add_to_database]. *)
Definition store (env : Env) (w : World) (profile_path : string)
    (cropped_frame : Np.image) (embedding : list Q) : call unit :=
  let i := first_free (paths w) profile_path (size (paths w)) 0 in
  let filename := numbered profile_path i in
  match cvtColor cropped_frame with
  | Ok bgr =>
      let w := imwrite env w filename bgr in
      Returns tt (add_to_database w embedding filename)
  | Raise e => Raises e w
  end.

(** [if os.path.exists(profile_path) and
     Path(profile_path) != Path(self.database_viewer.db_path): ...] *)
Definition store_in_profile (env : Env) (w : World) (profile_path : string)
    (cropped_frame : Np.image) (embedding : list Q) : call unit :=
  if bool_decide (profile_path ∈ paths w)
     && negb (bool_decide (Path profile_path = Path (db_path env)))
  then store env w profile_path cropped_frame embedding
  else Returns tt w.

(** The part of [process_face_like_mouse_click] after the
    recognition: choose the profile directory, then save. *)
Definition save_to_database (self : t) (env : Env) (w : World)
    (cropped_frame : Np.image) (embedding : list Q) : call unit :=
  let profile_path := str_or_none (selected_directory env) in
  if truthy profile_path then
    store_in_profile env w profile_path cropped_frame embedding
  else if truthy (str_or_none (target_name self)) then
    let new_profile := str_or_none (target_name self) in
    let profile_path := os_path_join (db_path env) new_profile in
    let w := makedirs_if_absent w profile_path in
    store_in_profile env w profile_path cropped_frame embedding
  else
    let '(new_profile, ps) := add_profile env (paths w) in
    let w := mkWorld (tracker_dict w) ps (written w) (database w) in
    if truthy (str_or_none new_profile) then
      let profile_path := os_path_join (db_path env) (str_or_none new_profile) in
      store_in_profile env w profile_path cropped_frame embedding
    else Returns tt w.

(** The shared first part of the two enrollment methods: the crop,
    the synthetic entry under the reserved identifier, the [try]
    block with its polling loop, and the [finally] clean-up. The
    result is the world after the clean-up, the crop, and the
    embedding: [None] after a timeout or an intercepted exception. *)
Definition recognize_face (env : Env) (w : World) (face_data : FaceData)
    (image : Np.image) : World * Np.image * option (list Q) :=
  let '(x, y, w_, h) := fd_bbox face_data in
  let keypoints := fd_keypoints face_data in
  let margin := 10 in
  let bbox_size := Z.max w_ h + 2 * margin in
  let center_x := x + w_ / 2 in
  let center_y := y + h / 2 in
  let x_start := Z.max 0 (center_x - bbox_size / 2) in
  let x_end := Z.min (snd (Np.shape image)) (center_x + bbox_size / 2) in
  let y_start := Z.max 0 (center_y - bbox_size / 2) in
  let y_end := Z.min (fst (Np.shape image)) (center_y + bbox_size / 2) in
  let cropped_frame := crop image y_start y_end x_start x_end in
  let fake_obj :=
    {| e_bbox := (x_start, y_start, x_end, y_end);
       e_keypoints := keypoints;
       e_name := "Unknown";
       e_embedding := Some (repeat 0%Q 128) |} in
  let track_id := manual_track_id in
  let w := with_tracker_dict w (<[track_id := fake_obj]> (tracker_dict w)) in
  (* try: *)
  let attempt : result (option (list Q)) :=
    k0 ← keypoint keypoints 0;
    k1 ← keypoint keypoints 1;
    _ ← recognize_put env;
    Ok (poll env (polls env)) in
  (* finally: *)
  let w := with_tracker_dict w (delete track_id (tracker_dict w)) in
  match attempt with
  | Ok (Some embedding) => (w, cropped_frame, Some embedding)
  | Ok None => (w, cropped_frame, None)   (* the time is up: [return] *)
  | Raise _ => (w, cropped_frame, None)   (* [except Exception: return] *)
  end.

(** [Demo.process_face_like_mouse_click] *)
Definition process_face_like_mouse_click (self : t) (env : Env) (w : World)
    (face_data : FaceData) (image : Np.image) : call unit :=
  let '(w, cropped_frame, found) := recognize_face env w face_data image in
  match found with
  | Some embedding => save_to_database self env w cropped_frame embedding
  | None => Returns tt w
  end.

(** [Demo.process_target_face_automatically]; [profile_names] are
    the gallery's keys once the new entry is in. With [target_name]
    [None], [os.path.join] raises [TypeError]. *)
Definition process_target_face_automatically (self : t) (env : Env) (w : World)
    (face_data : FaceData) (image : Np.image) (profile_names : gset string)
  : call t :=
  let '(w, cropped_frame, found) := recognize_face env w face_data image in
  match found with
  | Some embedding =>
      match target_name self with
      | Some target =>
          let profile_path := os_path_join (db_path env) target in
          let w := makedirs_if_absent w profile_path in
          if bool_decide (profile_path ∈ paths w) then
            match store env w profile_path cropped_frame embedding with
            | Returns _ w => Returns (update_search_targets self profile_names) w
            | Raises e w => Raises e w
            end
          else Returns self w
      | None => Raises TypeError w
      end
  | None => Returns self w
  end.

End Demo.

(** * Properties *)

(** ** Stand-ins for the external libraries

    The closed examples below need some OpenCV and some detector. The
    drawing calls of this one return their array unchanged, and its
    detector finds nothing. *)

Module Standin.

Import Py.

#[export] Instance cv2 : Cv2 := {|
  GaussianBlur img _ := Ok img;
  fillPoly_mask m _ _ := Ok m;
  fillPoly img _ _ := Ok img;
  addWeighted img _ _ _ _ := Ok img;
  rectangle img _ _ _ _ := Ok img;
  getTextSize _ _ _ := ((0, 0), 0);
  putText img _ _ _ _ _ := Ok img;
  interpolate _ width height :=
    repeat (repeat (0, 0, 0) (Z.to_nat width)) (Z.to_nat height)
|}.

#[export] Instance runtime : YoloE.Runtime := {|
  YoloE.Tensor := unit;
  YoloE.preprocess _ := tt;
  YoloE.postprocess p _ _ :=
    Ok [ {| YoloE.names := YoloE.NamesList (YoloE.p_classes p);
            YoloE.boxes_cls := []; YoloE.boxes_xyxy := []; YoloE.masks := None |} ]
|}.

(** A one-pixel frame that is not black. *)
Definition frame : Np.image := [[(10, 20, 30)]].

(** The detection result of an image without detections. *)
Definition nothing : YoloE.Results :=
  {| YoloE.names := YoloE.NamesList ["person"];
     YoloE.boxes_cls := []; YoloE.boxes_xyxy := []; YoloE.masks := None |}.


Definition framedata (rm_background do_blur : bool) : YoloE.Framedata :=
  {| YoloE.orig_frame := frame;
     YoloE.fd_do_seg := true; YoloE.fd_do_det := true; YoloE.fd_do_label := true;
     YoloE.fd_rm_background := rm_background; YoloE.fd_do_blur := do_blur |}.

Definition disk : YoloE.Files :=
  {| YoloE.cwd_onnx := None; YoloE.cwd_post := None;
     YoloE.assets_post := Some ["person"] |}.

End Standin.

(** ** The renderer *)

Module RenderFacts.

Import Py YoloE.

Lemma zero_row_has_no_mark (m : nat) :
  existsb (fun v => negb (v =? 0)) (repeat 0 m) = false.
Proof. induction m as [|m IH]; simpl; [reflexivity|exact IH]. Qed.

Lemma any_zeros h w : Np.any (Np.zeros h w) = false.
Proof.
  unfold Np.any, Np.zeros.
  induction (Z.to_nat h) as [|n IH]; simpl; [reflexivity|].
  rewrite IH, orb_false_r. apply zero_row_has_no_mark.
Qed.


Section WithCv2.

Context `{cv : Cv2}.

(** The background [plot_dets] chooses in step 2, for flags it
    accepts. *)
Definition background (img : Np.image) (remove_background do_blur : bool)
    (blur_sigma : option Q) : result Np.image :=
  if remove_background then Ok (Np.zeros_like img)
  else if do_blur && lt 0 (default 0%Q blur_sigma) then
    GaussianBlur img (default 0%Q blur_sigma)
  else Ok img.

(** C1. Whatever the frame, the detections and the other
    arguments, [plot_dets] called with [remove_background=True] and
    [do_blur=True] raises the [ValueError] of its flag check; it
    returns no image, so neither mode is chosen in place of the
    other. The rendering call of [_data_sink] is such a call whenever
    the frame was submitted with both flags. *)
Theorem plot_dets_rejects_remove_with_blur
    (img : Np.image) (dets : Results) (filter : option (list string))
    (do_seg do_det do_label : bool) (alpha : Q) (blur_sigma : option Q) :
  plot_dets img dets filter do_seg do_det do_label true true alpha blur_sigma
  = Raise (ValueError "remove_background and do_blur cannot both be True.")
  /\ (forall out : Np.image,
        plot_dets img dets filter do_seg do_det do_label true true alpha blur_sigma
        <> Ok out)
  /\ (forall s : t,
        rm_background s = true -> do_blur s = true ->
        render s img dets
        = Raise (ValueError "remove_background and do_blur cannot both be True.")).
Proof.
  assert (E : forall filter do_seg do_det do_label alpha blur_sigma,
             plot_dets img dets filter do_seg do_det do_label true true
                       alpha blur_sigma
             = Raise (ValueError "remove_background and do_blur cannot both be True.")).
  { intros. unfold plot_dets. destruct (Np.shape img). reflexivity. }
  split; [apply E|]. split.
  - intros out. rewrite E. discriminate.
  - intros s Hrm Hblur. unfold render. rewrite Hrm, Hblur. apply E.
Qed.

(** When the two loops have nothing to enumerate, [plot_dets]
    returns the background of step 2 as it is. *)
Lemma plot_dets_without_detections
    (img : Np.image) (dets : Results) (filter : option (list string))
    (do_seg do_det do_label remove_background do_blur : bool)
    (alpha : Q) (blur_sigma : option Q) :
  zipped dets = Ok [] ->
  remove_background && do_blur = false ->
  plot_dets img dets filter do_seg do_det do_label remove_background do_blur
            alpha blur_sigma
  = background img remove_background do_blur blur_sigma.
Proof.
  intros Hz Hflags. unfold plot_dets, background.
  destruct (Np.shape img) as [h w]. rewrite Hflags, Hz.
  assert (Hsig : match blur_sigma with Some v => v | None => 0%Q end
                 = default 0%Q blur_sigma) by (destruct blur_sigma; reflexivity).
  rewrite Hsig.
  destruct remove_background; simpl.
  - rewrite any_zeros. simpl. destruct (do_det || do_label); reflexivity.
  - destruct (do_blur && lt 0 (default 0%Q blur_sigma)).
    + destruct (GaussianBlur img (default 0%Q blur_sigma)) as [b|e]; simpl;
        [|reflexivity].
      rewrite any_zeros. simpl. destruct (do_det || do_label); reflexivity.
    + simpl. rewrite any_zeros. simpl. destruct (do_det || do_label); reflexivity.
Qed.

(** C3, as the code has it. The result of an image without
    detections has [masks = None]. On such a result [plot_dets]
    returns no image under any flags: after the flag check and the
    choice of the background, [zip(.., dets.masks)] raises
    [TypeError]. With the flags of the claim (no background removal,
    no blur) the call is that [TypeError]; it is not the input
    frame. *)
Theorem plot_dets_zero_detections
    (img : Np.image) (classes : names_t) (cls : list Q)
    (xyxy : list (Q * Q * Q * Q)) (filter : option (list string))
    (do_seg do_det do_label remove_background do_blur : bool)
    (alpha : Q) (blur_sigma : option Q) :
  let dets := {| names := classes; boxes_cls := cls; boxes_xyxy := xyxy;
                 masks := None |} in
  plot_dets img dets filter do_seg do_det do_label remove_background do_blur
            alpha blur_sigma
  = (if remove_background && do_blur then
       Raise (ValueError "remove_background and do_blur cannot both be True.")
     else
       _ ← background img remove_background do_blur blur_sigma; Raise TypeError)
  /\ (forall out : Np.image,
        plot_dets img dets filter do_seg do_det do_label remove_background do_blur
                  alpha blur_sigma
        <> Ok out)
  /\ plot_dets img dets filter do_seg do_det do_label false false alpha blur_sigma
     = Raise TypeError.
Proof.
  intros dets.
  assert (E : forall rm blur,
             plot_dets img dets filter do_seg do_det do_label rm blur
                       alpha blur_sigma
             = (if rm && blur then
                  Raise (ValueError "remove_background and do_blur cannot both be True.")
                else _ ← background img rm blur blur_sigma; Raise TypeError)).
  { intros rm blur. unfold plot_dets, background.
    destruct (Np.shape img) as [h w].
    destruct (rm && blur); [reflexivity|].
    assert (Hsig : match blur_sigma with Some v => v | None => 0%Q end
                   = default 0%Q blur_sigma) by (destruct blur_sigma; reflexivity).
    rewrite Hsig.
    destruct rm; [reflexivity|].
    destruct (blur && lt 0 (default 0%Q blur_sigma)); [|reflexivity].
    destruct (GaussianBlur img (default 0%Q blur_sigma)); reflexivity. }
  split; [apply E|]. split.
  - intros out. rewrite E. destruct (remove_background && do_blur); [discriminate|].
    destruct (background img remove_background do_blur blur_sigma); discriminate.
  - rewrite E. reflexivity.
Qed.


End WithCv2.



End RenderFacts.

(** ** The engine's methods *)

Module EngineFacts.

Import Py YoloE.

(** The calls the engine makes on its queues. *)
Lemma queue_get_blocking {A} (q : Queue.t A) :
  Queue.get q true None
  = match Queue.items q with
    | x :: rest => Queue.Done (x, Queue.mk (Queue.maxsize q) rest)
    | [] => Queue.Waits
    end.
Proof. unfold Queue.get. simpl. destruct (Queue.items q); reflexivity. Qed.

Lemma queue_put_blocking {A} (q : Queue.t A) (x : A) :
  Queue.put q x true None
  = if Queue.full q then Queue.Waits
    else Queue.Done (Queue.mk (Queue.maxsize q) (Queue.items q ++ [x])).
Proof.
  unfold Queue.put, Queue.full. simpl.
  destruct (0 <? Queue.maxsize q)%nat; reflexivity.
Qed.

Lemma queue_get_timed {A} (q : Queue.t A) (seconds : Q) :
  lt seconds 0 = false ->
  Queue.get q true (Some seconds)
  = match Queue.items q with
    | x :: rest => Queue.Done (x, Queue.mk (Queue.maxsize q) rest)
    | [] => Queue.Fails QueueEmpty
    end.
Proof.
  intros Hs. unfold Queue.get. simpl. rewrite Hs.
  destruct (Queue.items q); reflexivity.
Qed.

(** Whatever [block] and [timeout] are, a [put] that completes has
    appended its item, and a [get] that completes has taken the
    first one. *)
Lemma queue_put_cases {A} (q : Queue.t A) (x : A) (block : bool)
    (timeout : option Q) :
  Queue.put q x block timeout
  = Queue.Done (Queue.mk (Queue.maxsize q) (Queue.items q ++ [x]))
  \/ (exists e, Queue.put q x block timeout = Queue.Fails e)
  \/ Queue.put q x block timeout = Queue.Waits.
Proof.
  unfold Queue.put.
  destruct (0 <? Queue.maxsize q)%nat; [|by left].
  destruct block; simpl.
  - destruct timeout as [seconds|].
    + destruct (lt seconds 0); [right; left; eauto|].
      destruct (Queue.full q); [right; left; eauto|by left].
    + destruct (Queue.full q); [by right; right|by left].
  - destruct (Queue.full q); [right; left; eauto|by left].
Qed.

Lemma queue_get_cases {A} (q : Queue.t A) (block : bool) (timeout : option Q) :
  (exists x rest, Queue.items q = x :: rest
                  /\ Queue.get q block timeout
                     = Queue.Done (x, Queue.mk (Queue.maxsize q) rest))
  \/ (exists e, Queue.get q block timeout = Queue.Fails e)
  \/ Queue.get q block timeout = Queue.Waits.
Proof.
  unfold Queue.get.
  destruct block; simpl.
  - destruct timeout as [seconds|].
    + destruct (lt seconds 0); [right; left; eauto|].
      destruct (Queue.items q); [right; left; eauto|left; eauto].
    + destruct (Queue.items q); [by right; right|left; eauto].
  - destruct (Queue.items q); [right; left; eauto|left; eauto].
Qed.

(** The rendering call reads the configuration only. *)
Lemma render_with_middle_q `{cv : Cv2} (s : t) (mq : Queue.t Np.image)
    (frame : Np.image) (dets : Results) :
  render (with_middle_q s mq) frame dets = render s frame dets.
Proof. reflexivity. Qed.

(** C2. When the rendering of a frame raises, whatever the
    exception, [_data_sink] puts the unannotated source frame on the
    output queue: the call returns with that frame appended, or, when
    the output queue is full, waits for room; it does not raise. *)
Theorem data_sink_render_failure `{cv : Cv2} `{rt : Runtime}
    (s : t) (orig_frame : Np.image) (waiting : list Np.image)
    (o0 o1 : Tensor) (more : list Tensor)
    (dets0 : Results) (others : list Results) (e : exn) :
  Queue.items (middle_q s) = orig_frame :: waiting ->
  postprocess (_predictor s) [o1; o0] orig_frame = Ok (dets0 :: others) ->
  render s orig_frame dets0 = Raise e ->
  _data_sink s (o0 :: o1 :: more)
  = (if Queue.full (output_q s) then Blocks
     else Returns tt
            (with_output_q
               (with_middle_q s (Queue.mk (Queue.maxsize (middle_q s)) waiting))
               (Queue.mk (Queue.maxsize (output_q s))
                         (Queue.items (output_q s) ++ [AnnotatedFrame_of orig_frame]))))
  /\ forall (err : exn) (s' : t), _data_sink s (o0 :: o1 :: more) <> Raises err s'.
Proof.
  intros Hq Hpost Hrender.
  assert (E : _data_sink s (o0 :: o1 :: more)
              = emit (with_middle_q s (Queue.mk (Queue.maxsize (middle_q s)) waiting))
                     orig_frame).
  { unfold _data_sink. rewrite queue_get_blocking, Hq. cbn [_predictor with_middle_q].
    rewrite Hpost, render_with_middle_q, Hrender. reflexivity. }
  rewrite E. unfold emit. rewrite queue_put_blocking. cbn [output_q with_middle_q].
  destruct (Queue.full (output_q s)); split; try reflexivity; intros; discriminate.
Qed.

(** A frame submitted with both background flags, on its way to
    [_data_sink]. *)
Definition conflicting : t :=
  with_middle_q
    (with_flags (eng (init ["person"] Standin.disk)) (Standin.framedata true true))
    (Queue.mk 2 [Standin.frame]).

Lemma data_sink_render_failure_witness :
  _data_sink (cv := Standin.cv2) (rt := Standin.runtime) conflicting [tt; tt]
  = Returns tt
      (with_output_q (with_middle_q conflicting (Queue.mk 2 []))
                     (Queue.mk 1 [AnnotatedFrame_of Standin.frame])).
Proof.
  apply (data_sink_render_failure (cv := Standin.cv2) (rt := Standin.runtime)
           conflicting Standin.frame [] tt tt [] Standin.nothing []
           (ValueError "remove_background and do_blur cannot both be True."));
    reflexivity.
Defined.

Lemma drain_keeps_stopped (fuel : nat) (s s' : t) (u : unit) :
  drain fuel s = Some (Returns u s') -> _stopped s' = _stopped s.
Proof.
  revert s. induction fuel as [|fuel IH]; intros s; simpl.
  - destruct (0 <? _outstanding_frames s); [discriminate|].
    intros [= _ ->]. reflexivity.
  - destruct (0 <? _outstanding_frames s).
    + destruct (drain_turn s) as [v s1|err s1|] eqn:Hturn; try discriminate.
      intros Hd. rewrite (IH _ Hd).
      unfold drain_turn, get in Hturn.
      destruct (Queue.get (output_q s) true (Some (1 # 10)%Q)) as [[fr q]|err|];
        [| |discriminate].
      * injection Hturn as _ <-. reflexivity.
      * destruct err; try discriminate. injection Hturn as _ <-. reflexivity.
    + intros [= _ ->]. reflexivity.
Qed.

(** Once [stop] has returned, the engine is stopped. *)
Lemma stop_sets_stopped (fuel : nat) (s s' : t) (u : unit) :
  stop fuel s = Some (Returns u s') -> _stopped s' = true.
Proof.
  unfold stop. destruct (_stopped s) eqn:Hs.
  - intros [= _ <-]. exact Hs.
  - destruct (drain fuel s) as [[v s1|err s1|]|] eqn:Hd; try discriminate.
    unfold stop_finish.
    destruct (Queue.put (input_q s1) None true None); try discriminate.
    intros [= _ <-]. reflexivity.
Qed.

(** C4, as the code has it. After [stop] has completed, a call of
    [put] enqueues nothing and leaves the engine as it was, counter
    included, whatever [block] and [timeout] are; it raises nothing
    and returns [None], as an accepted [put] does: the caller is not
    told. *)
Theorem put_after_stop_is_dropped (fuel : nat) (s s' : t)
    (data : option Framedata) (block : bool) (timeout : option Q) :
  stop fuel s = Some (Returns tt s') ->
  put s' data block timeout = Returns tt s'.
Proof.
  intros Hstop. unfold put.
  rewrite (stop_sets_stopped _ _ _ _ Hstop). reflexivity.
Qed.

(** A fresh engine, the same engine after [stop], and after an
    accepted [put]. *)
Definition fresh : t := eng (init ["person"] Standin.disk).
Definition halted : t :=
  with_stopped (with_input_q fresh (Queue.mk 1 [None])) true.
Definition loaded : t :=
  with_outstanding_frames
    (with_input_q fresh (Queue.mk 1 [Some (Standin.framedata false false)])) 1.

Lemma put_after_stop_is_dropped_witness :
  put halted (Some (Standin.framedata false false)) true None = Returns tt halted.
Proof.
  apply (put_after_stop_is_dropped 0 fresh halted). reflexivity.
Defined.

(** C4 as stated fails: after [stop], [put] ends exactly as an
    accepted [put] ends, by returning [None]; no error reaches the
    caller, with or without blocking. *)
Lemma put_after_stop_reports_nothing :
  stop 0 fresh = Some (Returns tt halted)
  /\ put halted (Some (Standin.framedata false false)) true None = Returns tt halted
  /\ put halted (Some (Standin.framedata false false)) false None = Returns tt halted
  /\ put fresh (Some (Standin.framedata false false)) true None = Returns tt loaded.
Proof. repeat split. Qed.

(** The loop of the [selected_classes] setter finds an unknown name
    exactly when there is one. *)
Lemma has_invalid_class_true (known cs : list string) :
  has_invalid_class known cs = true <-> exists c, c ∈ cs /\ c ∉ known.
Proof.
  induction cs as [|c cs IH]; simpl.
  - split; [discriminate|]. intros [c [Hc _]]. inversion Hc.
  - destruct (bool_decide (c ∈ known)) eqn:Hk.
    + apply bool_decide_eq_true in Hk. rewrite IH. split.
      * intros [c' [Hin Hnot]]. exists c'. split; [by right|done].
      * intros [c' [Hin Hnot]]. exists c'. split; [|done].
        apply elem_of_cons in Hin as [->|Hin]; [contradiction|done].
    + apply bool_decide_eq_false in Hk. split; [|done].
      intros _. exists c. split; [by left|done].
Qed.

Lemma lt_true_iff (a b : Q) : lt a b = true <-> (a < b)%Q.
Proof.
  unfold lt. rewrite negb_true_iff. split.
  - intros H. apply Qnot_le_lt. intros Hle.
    apply Qle_bool_iff in Hle. congruence.
  - intros H. destruct (Qle_bool b a) eqn:E; [|reflexivity].
    apply Qle_bool_iff in E. exfalso. exact (Qlt_not_le _ _ H E).
Qed.

Lemma lt_false_iff (a b : Q) : lt a b = false <-> (b <= a)%Q.
Proof.
  unfold lt. rewrite negb_false_iff. apply Qle_bool_iff.
Qed.

(** C9. Each of the three property setters returns without raising.
    An assignment out of range (a [darkness] below 0 or above 1, a
    negative [blur_sigma], a [selected_classes] list with a name that
    is not in [classes]) leaves the whole object as it was; an
    assignment in range stores the assigned value and changes nothing
    else. *)
Theorem setters_guard_their_range (s : t) (val : Q) (cs : list string) :
  (((val < 0)%Q \/ (1 < val)%Q) -> set_darkness s val = Returns tt s)
  /\ (((0 <= val)%Q /\ (val <= 1)%Q) ->
      set_darkness s val = Returns tt (with_darkness s val)
      /\ _darkness (with_darkness s val) = val)
  /\ ((val < 0)%Q -> set_blur_sigma s val = Returns tt s)
  /\ ((0 <= val)%Q ->
      set_blur_sigma s val = Returns tt (with_blur_sigma s val)
      /\ _blur_sigma (with_blur_sigma s val) = val)
  /\ ((exists c, c ∈ cs /\ c ∉ classes s) -> set_selected_classes s cs = Returns tt s)
  /\ ((forall c, c ∈ cs -> c ∈ classes s) ->
      set_selected_classes s cs = Returns tt (with_selected_classes s cs)
      /\ _selected_classes (with_selected_classes s cs) = cs).
Proof.
  repeat split.
  - intros [H|H]; unfold set_darkness.
    + apply lt_true_iff in H. rewrite H. reflexivity.
    + apply lt_true_iff in H. rewrite H, orb_true_r. reflexivity.
  - destruct H as [H0 H1]. unfold set_darkness.
    apply lt_false_iff in H0, H1. rewrite H0, H1. reflexivity.
  - intros H. unfold set_blur_sigma. apply lt_true_iff in H. rewrite H. reflexivity.
  - unfold set_blur_sigma. apply lt_false_iff in H. rewrite H. reflexivity.
  - intros H. unfold set_selected_classes.
    apply has_invalid_class_true in H. rewrite H. reflexivity.
  - unfold set_selected_classes.
    destruct (has_invalid_class (classes s) cs) eqn:E; [|reflexivity].
    apply has_invalid_class_true in E as [c [Hin Hnot]].
    exfalso. apply Hnot, H, Hin.
Qed.

Lemma setters_guard_their_range_witness :
  set_darkness fresh (3 # 2) = Returns tt fresh
  /\ set_blur_sigma fresh (-1 # 2) = Returns tt fresh
  /\ set_selected_classes fresh ["person"; "dog"] = Returns tt fresh
  /\ set_darkness fresh (1 # 2) = Returns tt (with_darkness fresh (1 # 2)).
Proof.
  destruct (setters_guard_their_range fresh (3 # 2) ["person"; "dog"])
    as (Hdark & _ & _ & _ & Hsel & _).
  destruct (setters_guard_their_range fresh (-1 # 2) []) as (_ & _ & Hsigma & _).
  destruct (setters_guard_their_range fresh (1 # 2) []) as (_ & Hin & _).
  split; [apply Hdark; right; reflexivity|].
  split; [apply Hsigma; reflexivity|].
  split; [apply Hsel; exists "dog"; split;
          [by right; left | by intros H%list_elem_of_singleton]|].
  apply Hin. split; discriminate.
Defined.

End EngineFacts.

(** ** Reconfiguration *)

Module ReconfigFacts.

Import Py YoloE.

(** The attributes the other threads' methods leave alone. *)
Definition quiet (e e' : t) : Prop :=
  _stopped e' = _stopped e /\ yoloe e' = yoloe e /\ _predictor e' = _predictor e
  /\ classes e' = classes e /\ _selected_classes e' = _selected_classes e
  /\ _accl e' = _accl e.

(** By how much the counter exceeds the frames in the pipeline. *)
Definition surplus (e : t) : Z := _outstanding_frames e - Z.of_nat (in_flight e).

(** The four class lists of the engine are [cs]. *)
Definition configured (e : t) (cs : list string) : Prop :=
  yoloe e = cs /\ p_classes (_predictor e) = cs
  /\ classes e = cs /\ _selected_classes e = cs.

(** What holds at each statement of [update_classes(cs)]. *)
Definition expect (c : pc) (e : t) (f : Files) : Prop :=
  match c with
  | AtPredictor cs => yoloe e = cs
  | AtClasses cs => yoloe e = cs /\ p_classes (_predictor e) = cs
  | AtSelected cs =>
      yoloe e = cs /\ p_classes (_predictor e) = cs /\ classes e = cs
  | AtExport cs => configured e cs
  | AtCompile cs => configured e cs /\ cwd_onnx f = Some cs
  | AtMove cs d => configured e cs /\ (d = true -> cwd_post f = Some cs)
  | AtConnect cs d => configured e cs /\ (d = true -> assets_post f = Some cs)
  | AtResume cs d | Returned cs d =>
      configured e cs /\ (d = true -> _accl e = Some {| accl_post := Some cs |})
  | _ => True
  end.

(** The invariant of the interleaved system. *)
Definition inv (s : sys) : Prop :=
  0 <= surplus (eng s)
  /\ (_stopped (eng s) = true -> _outstanding_frames (eng s) <= 0)
  /\ (forall cs, ctl s = AtSentinel cs -> _outstanding_frames (eng s) <= 0)
  /\ (rebuilding (ctl s) = true -> _stopped (eng s) = true)
  /\ expect (ctl s) (eng s) (files s).

Lemma expect_quiet (c : pc) (e e' : t) (f : Files) :
  quiet e e' -> expect c e f -> expect c e' f.
Proof.
  intros (_ & Hy & Hp & Hc & Hs & Ha).
  destruct c; simpl; unfold configured; rewrite ?Hy, ?Hp, ?Hc, ?Hs, ?Ha; auto.
Qed.

Lemma length_omap_snoc_none {A} (l : list (option A)) :
  length (omap id (l ++ [None])) = length (omap id l).
Proof. rewrite omap_app. simpl. rewrite app_nil_r. reflexivity. Qed.

Lemma length_omap_snoc {A} (l : list (option A)) (x : option A) :
  (length (omap id (l ++ [x])) <= S (length (omap id l)))%nat.
Proof.
  rewrite omap_app, length_app. destruct x; simpl; lia.
Qed.

(** A call that ended, by returning or by raising: which way. *)
Ltac ended Ho :=
  destruct Ho as [[? Ho]|[? Ho]]; try discriminate Ho;
  inversion Ho; subst; clear Ho.

Lemma put_summary (e e' : t) (data : option Framedata) (block : bool)
    (timeout : option Q) (o : outcome unit) :
  put e data block timeout = o ->
  (exists u, o = Returns u e') \/ (exists err, o = Raises err e') ->
  quiet e e' /\ surplus e <= surplus e'
  /\ (_stopped e = true -> e' = e).
Proof.
  unfold put. intros <- Ho.
  destruct (_stopped e) eqn:Hst.
  - ended Ho. repeat split; reflexivity || lia.
  - destruct (EngineFacts.queue_put_cases (input_q e) data block timeout)
      as [E|[[err E]|E]]; rewrite E in Ho.
    + ended Ho.
      split; [destruct e; repeat split; simpl in *; congruence|].
      split; [|intros; discriminate].
      unfold surplus, in_flight. destruct e; simpl.
      pose proof (length_omap_snoc (Queue.items input_q0) data). lia.
    + ended Ho; (repeat split; reflexivity || lia || (intros; discriminate)).
    + ended Ho.
Qed.

Lemma get_summary (e e' : t) (block : bool) (timeout : option Q)
    (o : outcome AnnotatedFrame) :
  get e block timeout = o ->
  (exists u, o = Returns u e') \/ (exists err, o = Raises err e') ->
  quiet e e' /\ surplus e <= surplus e'
  /\ _outstanding_frames e' <= _outstanding_frames e.
Proof.
  unfold get. intros <- Ho.
  destruct (EngineFacts.queue_get_cases (output_q e) block timeout)
    as [(fr & rest & Hit & E)|[[err E]|E]]; rewrite E in Ho.
  - ended Ho.
    split; [destruct e; repeat split; simpl in *; congruence|].
    unfold surplus, in_flight. destruct e; simpl in *. rewrite Hit. simpl. lia.
  - ended Ho; repeat split; reflexivity || lia.
  - ended Ho.
Qed.

Section WithBackends.

Context `{cv : Cv2} `{rt : Runtime}.

Lemma source_summary (e e' : t) (o : outcome (option Tensor)) :
  _data_source e = o ->
  (exists u, o = Returns u e') \/ (exists err, o = Raises err e') ->
  quiet e e' /\ surplus e <= surplus e'
  /\ _outstanding_frames e' <= _outstanding_frames e.
Proof.
  unfold _data_source. rewrite EngineFacts.queue_get_blocking. intros <- Ho.
  destruct (Queue.items (input_q e)) as [|data rest] eqn:Hit.
  - ended Ho.
  - destruct data as [d|].
    + rewrite EngineFacts.queue_put_blocking in Ho.
      cbn [middle_q with_flags with_input_q] in Ho.
      destruct (letterbox (orig_frame d) _img_size) as [[padded pads]|lerr].
      * destruct (Queue.full (middle_q e)); ended Ho.
        split; [destruct e; repeat split; simpl in *; congruence|].
        unfold surplus, in_flight. destruct e; simpl in *. rewrite Hit. simpl.
        rewrite length_app. simpl. unfold omap. lia.
      * ended Ho.
        split; [destruct e; repeat split; simpl in *; congruence|].
        unfold surplus, in_flight. destruct e; simpl in *. rewrite Hit. simpl.
        unfold omap. lia.
    + ended Ho.
      split; [destruct e; repeat split; simpl in *; congruence|].
      unfold surplus, in_flight. destruct e; simpl in *. rewrite Hit. simpl.
      unfold omap. lia.
Qed.

Lemma emit_summary (e e' : t) (img : Np.image) (o : outcome unit) :
  emit e img = o ->
  (exists u, o = Returns u e') \/ (exists err, o = Raises err e') ->
  quiet e e' /\ surplus e' = surplus e - 1
  /\ _outstanding_frames e' = _outstanding_frames e.
Proof.
  unfold emit. rewrite EngineFacts.queue_put_blocking. intros <- Ho.
  destruct (Queue.full (output_q e)); ended Ho.
  split; [destruct e; repeat split; simpl in *; congruence|].
  unfold surplus, in_flight. destruct e; simpl in *.
  rewrite length_app. simpl. lia.
Qed.

Lemma sink_summary (e e' : t) (outputs : list Tensor) (o : outcome unit) :
  _data_sink e outputs = o ->
  (exists u, o = Returns u e') \/ (exists err, o = Raises err e') ->
  quiet e e' /\ surplus e <= surplus e'
  /\ _outstanding_frames e' <= _outstanding_frames e.
Proof.
  unfold _data_sink. rewrite EngineFacts.queue_get_blocking. intros <- Ho.
  destruct (Queue.items (middle_q e)) as [|fr rest] eqn:Hit; [ended Ho|].
  set (e1 := with_middle_q e (Queue.mk (Queue.maxsize (middle_q e)) rest)) in *.
  assert (H1 : quiet e e1 /\ surplus e1 = surplus e + 1
               /\ _outstanding_frames e1 = _outstanding_frames e).
  { subst e1. split; [destruct e; repeat split; simpl in *; congruence|].
    unfold surplus, in_flight. destruct e; simpl in *. rewrite Hit. simpl. lia. }
  destruct H1 as (Hq1 & Hs1 & Ho1).
  assert (Hemit : forall img,
             (exists u, emit e1 img = Returns u e')
             \/ (exists err, emit e1 img = Raises err e') ->
             quiet e e' /\ surplus e <= surplus e'
             /\ _outstanding_frames e' <= _outstanding_frames e).
  { intros img Hem.
    destruct (emit_summary e1 e' img _ eq_refl Hem) as (Hq2 & Hs2 & Ho2).
    split; [|lia].
    destruct Hq1 as (?&?&?&?&?&?), Hq2 as (?&?&?&?&?&?).
    repeat split; congruence. }
  destruct outputs as [|o0 [|o1 more]];
    try (ended Ho; repeat split; solve [apply Hq1 | lia]).
  destruct (postprocess (_predictor e1) [o1; o0] fr) as [[|dets0 ds]|perr];
    try (ended Ho; repeat split; solve [apply Hq1 | lia]).
  - eapply Hemit; exact Ho.
  - destruct (render e1 fr dets0); eapply Hemit; exact Ho.
Qed.

(** *** One caller at a time

    The steps of the program as the one thread sees them that is
    inside [update_classes] while no other thread is. *)

Definition seen {A} (s : sys) (o : outcome A) : option sys :=
  match o with
  | Returns _ e => Some (mkSys e (files s) (ctl s))
  | Raises _ e => Some (mkSys e (files s) (ctl s))
  | Blocks => None
  end.

Definition solo_step (a : action) (s : sys) : option sys :=
  match a with
  | Put data block timeout =>
      if lock_held (ctl s) then None
      else seen s (put (eng s) data block timeout)
  | Get block timeout => seen s (get (eng s) block timeout)
  | Source => seen s (_data_source (eng s))
  | Sink outputs => seen s (_data_sink (eng s) outputs)
  | Update cs =>
      if finished (ctl s) then Some (mkSys (eng s) (files s) (AtStop cs))
      else None
  | Advance _ x => advance x s
  end.

Fixpoint solo_run (acts : list action) (s : sys) : option sys :=
  match acts with
  | [] => Some s
  | a :: acts' =>
      match solo_step a s with
      | Some s' => solo_run acts' s'
      | None => None
      end
  end.

Lemma seen_ended {A} (s s' : sys) (o : outcome A) :
  seen s o = Some s' ->
  exists e', s' = mkSys e' (files s) (ctl s)
             /\ ((exists u, o = Returns u e') \/ (exists err, o = Raises err e')).
Proof.
  destruct o as [u e'|err e'|]; simpl; [| |discriminate];
    intros [= <-]; exists e'; eauto.
Qed.


Lemma inv_init (class_names : list string) (disk : Files) :
  inv (init class_names disk).
Proof.
  unfold inv, init, surplus, in_flight. simpl.
  repeat split; try lia; discriminate.
Qed.

(** A step of another thread that leaves the configuration alone
    and does not raise the counter keeps the invariant. *)
Lemma inv_quiet (s : sys) (e' : t) :
  inv s -> quiet (eng s) e' -> surplus (eng s) <= surplus e' ->
  _outstanding_frames e' <= _outstanding_frames (eng s) ->
  inv (mkSys e' (files s) (ctl s)).
Proof.
  intros (Hs & Hst & Hsen & Hre & Hex) Hq Hsur Hout.
  pose proof Hq as (Hq1 & _).
  unfold inv. simpl. repeat split.
  - lia.
  - intros H. rewrite Hq1 in H. specialize (Hst H). lia.
  - intros cs H. specialize (Hsen cs H). lia.
  - intros H. rewrite Hq1. apply Hre, H.
  - eapply expect_quiet; eassumption.
Qed.

Lemma inv_put (s s' : sys) (data : option Framedata) (block : bool)
    (timeout : option Q) :
  inv s -> solo_step (Put data block timeout) s = Some s' -> inv s'.
Proof.
  intros Hinv. simpl. destruct (lock_held (ctl s)) eqn:Hlock; [discriminate|].
  intros Hstep. apply seen_ended in Hstep as (e' & -> & Hend).
  destruct (put_summary (eng s) e' data block timeout _ eq_refl Hend)
    as (Hq & Hsur & Hsame).
  destruct (_stopped (eng s)) eqn:Hst.
  - rewrite (Hsame eq_refl). destruct s; exact Hinv.
  - destruct Hinv as (Hs & Hstop & Hsen & Hre & Hex).
    pose proof Hq as (Hq1 & _).
    unfold inv. simpl. repeat split.
    + lia.
    + intros H. congruence.
    + intros cs H. rewrite H in Hlock. discriminate.
    + intros H. specialize (Hre H). congruence.
    + eapply expect_quiet; eassumption.
Qed.

Lemma selected_after_classes (e : t) (cs : list string) :
  classes e = cs ->
  assign_selected_classes e cs = with_selected_classes e cs.
Proof.
  intros Hc. unfold assign_selected_classes, set_selected_classes. rewrite Hc.
  destruct (has_invalid_class cs cs) eqn:E; [|reflexivity].
  apply EngineFacts.has_invalid_class_true in E as (c & Hin & Hnot).
  contradiction.
Qed.

Lemma drain_turn_summary (e e' : t) (o : outcome unit) :
  drain_turn e = o ->
  (exists u, o = Returns u e') \/ (exists err, o = Raises err e') ->
  quiet e e' /\ surplus e <= surplus e'
  /\ _outstanding_frames e' <= _outstanding_frames e.
Proof.
  unfold drain_turn. intros <- Ho.
  destruct (get e true (Some (1 # 10)%Q)) as [fr e1|err e1|] eqn:Hget.
  - apply (get_summary e e' true (Some (1 # 10)%Q) _ Hget).
    ended Ho. eauto.
  - apply (get_summary e e' true (Some (1 # 10)%Q) _ Hget).
    destruct err; ended Ho; eauto.
  - ended Ho.
Qed.

Lemma inv_advance (x : ext) (s s' : sys) :
  inv s -> advance x s = Some s' -> inv s'.
Proof.
  intros Hinv. pose proof Hinv as (Hs & Hstop & Hsen & Hre & Hex).
  unfold advance. destruct s as [e f c]. simpl in *.
  destruct c; simpl in *; try discriminate.
  - (* AtStop *)
    destruct (_stopped e) eqn:Hst; intros [= <-];
      unfold inv; simpl; repeat split; auto; intros; discriminate || congruence.
  - (* AtLock *)
    intros [= <-];
      unfold inv; simpl; repeat split; auto; intros; discriminate || congruence.
  - (* AtDrain *)
    destruct (0 <? _outstanding_frames e) eqn:Hpos.
    + destruct (drain_turn e) as [u e1|err e1|] eqn:Hturn; [| |discriminate].
      * intros [= <-].
        destruct (drain_turn_summary e e1 _ Hturn) as (Hq & Hsur & Hout); [eauto|].
        apply (inv_quiet (mkSys e f (AtDrain cs)) e1 Hinv Hq Hsur Hout).
      * intros [= <-].
        destruct (drain_turn_summary e e1 _ Hturn) as (Hq & Hsur & Hout); [eauto|].
        pose proof Hq as (Hq1 & _).
        unfold inv; simpl; repeat split; try lia; try (intros; discriminate || congruence).
        intros H. rewrite Hq1 in H. specialize (Hstop H). lia.
    + intros [= <-]. apply Z.ltb_ge in Hpos.
      unfold inv; simpl; repeat split; auto; intros; discriminate || congruence.
  - (* AtSentinel *)
    unfold stop_finish. rewrite EngineFacts.queue_put_blocking.
    destruct (Queue.full (input_q e)); [discriminate|].
    intros [= <-]. specialize (Hsen cs eq_refl).
    unfold inv; simpl; repeat split; auto; try (intros; discriminate || congruence).
    unfold surplus, in_flight in *. destruct e; simpl in *.
    rewrite length_omap_snoc_none. exact Hs.
  - (* AtSetClasses *)
    specialize (Hre eq_refl).
    destruct x; intros [= <-]; unfold inv; simpl; repeat split;
      auto; try (intros; discriminate || congruence); destruct e; simpl in *; auto.
  - (* AtPredictor *)
    specialize (Hre eq_refl).
    intros [= <-]; unfold inv; simpl; repeat split;
      auto; try (intros; discriminate || congruence); destruct e; simpl in *; auto.
  - (* AtClasses *)
    specialize (Hre eq_refl). destruct Hex as (Hy & Hp).
    intros [= <-]; unfold inv; simpl; repeat split;
      auto; try (intros; discriminate || congruence); destruct e; simpl in *; auto.
  - (* AtSelected *)
    specialize (Hre eq_refl). destruct Hex as (Hy & Hp & Hc).
    rewrite (selected_after_classes e cs Hc).
    intros [= <-]; unfold inv, configured; simpl; repeat split;
      auto; try (intros; discriminate || congruence); destruct e; simpl in *; auto.
  - (* AtExport *)
    specialize (Hre eq_refl). pose proof Hex as (Hy & _).
    destruct x; intros [= <-]; unfold inv; simpl; repeat split;
      auto; try (intros; discriminate || congruence); try apply Hex; congruence.
  - (* AtCompile *)
    specialize (Hre eq_refl). destruct Hex as (Hcfg & Honnx).
    destruct x; intros [= <-]; unfold inv; simpl; repeat split;
      auto; try (intros; discriminate || congruence); try apply Hcfg.
  - (* AtMove *)
    specialize (Hre eq_refl). destruct Hex as (Hcfg & Hpost).
    destruct (cwd_post f) as [m|] eqn:Hm; intros [= <-];
      unfold inv; simpl; repeat split; auto; try (intros; discriminate || congruence); try apply Hcfg.
    all: intros Hd; specialize (Hpost Hd); discriminate || congruence.
  - (* AtConnect *)
    specialize (Hre eq_refl). destruct Hex as (Hcfg & Hassets).
    destruct Hcfg as (?&?&?&?).
    destruct x; intros [= <-]; unfold inv, configured; simpl; repeat split;
      auto; try (intros; discriminate || congruence); destruct e; simpl in *; auto;
      intros Hd; rewrite (Hassets Hd); reflexivity.
  - (* AtResume *)
    specialize (Hre eq_refl). destruct Hex as (Hcfg & Haccl).
    destruct Hcfg as (?&?&?&?).
    intros [= <-]; unfold inv, configured; simpl; repeat split;
      auto; try (intros; discriminate || congruence); destruct e; simpl in *; auto.
Qed.

Lemma inv_step (a : action) (s s' : sys) :
  inv s -> solo_step a s = Some s' -> inv s'.
Proof.
  intros Hinv. destruct a as [data block timeout|block timeout| |outputs|cs|i x].
  - apply inv_put, Hinv.
  - simpl. intros Hstep. apply seen_ended in Hstep as (e' & -> & Hend).
    destruct (get_summary (eng s) e' block timeout _ eq_refl Hend) as (?&?&?).
    by apply inv_quiet.
  - simpl. intros Hstep. apply seen_ended in Hstep as (e' & -> & Hend).
    destruct (source_summary (eng s) e' _ eq_refl Hend) as (?&?&?).
    by apply inv_quiet.
  - simpl. intros Hstep. apply seen_ended in Hstep as (e' & -> & Hend).
    destruct (sink_summary (eng s) e' outputs _ eq_refl Hend) as (?&?&?).
    by apply inv_quiet.
  - simpl. destruct Hinv as (Hs & Hstop & Hsen & Hre & Hex).
    destruct (ctl s) eqn:Hc; try discriminate; intros [= <-];
      unfold inv; simpl; repeat split; auto; intros; discriminate || congruence.
  - apply inv_advance, Hinv.
Qed.

Lemma inv_run (acts : list action) (s s' : sys) :
  inv s -> solo_run acts s = Some s' -> inv s'.
Proof.
  revert s. induction acts as [|a acts IH]; intros s Hinv; simpl.
  - intros [= <-]. exact Hinv.
  - destruct (solo_step a s) as [s1|] eqn:Hstep; [|discriminate].
    apply IH. eapply inv_step; eassumption.
Qed.

(** The caller that entered [update_classes] last. *)
Definition current (p : threads) : pc := List.last (callers p) Idle.

(** The program seen by its latest caller, all earlier calls having
    ended. *)
Definition lined_up (p : threads) (s : sys) : Prop :=
  engine p = eng s /\ disk p = files s /\ current p = ctl s
  /\ forallb finished (removelast (callers p)) = true.

Lemma last_snoc (l : list pc) (c d : pc) : List.last (l ++ [c]) d = c.
Proof. induction l as [|x l IH]; [reflexivity|]. simpl. destruct (l ++ [c]) eqn:E; [by destruct l|exact IH]. Qed.

Lemma snoc_cases (l : list pc) : l = [] \/ exists l' c, l = l' ++ [c].
Proof. destruct l as [|c l] using rev_ind; [by left|right; eauto]. Qed.

Lemma lock_free_lined_up (p : threads) (s : sys) :
  lined_up p s -> lock_free (callers p) = negb (lock_held (ctl s)).
Proof.
  intros (_ & _ & Hcur & Hdone). unfold current, lock_free in *.
  destruct (snoc_cases (callers p)) as [E|(l & c & E)]; rewrite E in *.
  - simpl in *. rewrite <- Hcur. reflexivity.
  - rewrite last_snoc in Hcur. rewrite removelast_last in Hdone. subst c.
    rewrite forallb_app. simpl. rewrite andb_true_r.
    assert (Hfree : forallb (fun c => negb (lock_held c)) l = true).
    { apply forallb_forall. intros c Hc.
      rewrite forallb_forall in Hdone. specialize (Hdone c Hc).
      destruct c; simpl in *; congruence. }
    rewrite Hfree. reflexivity.
Qed.

Lemma after_lined_up {A} (p p' : threads) (s : sys) (o : outcome A) :
  lined_up p s -> after p o = Some p' ->
  exists s', seen s o = Some s' /\ lined_up p' s'.
Proof.
  intros (He & Hf & Hc & Hd). destruct o as [u e'|err e'|]; simpl;
    [| |discriminate]; intros [= <-]; eexists; (split; [reflexivity|]);
    repeat split; assumption.
Qed.

Lemma step_lined_up (a : action) (p p' : threads) (s : sys) :
  lined_up p s ->
  match a with Update _ => forallb finished (callers p) = true | _ => True end ->
  step a p = Some p' ->
  exists s', solo_step a s = Some s' /\ lined_up p' s'.
Proof.
  intros Hl Hone. pose proof Hl as (He & Hf & Hc & Hd).
  destruct a as [data block timeout|block timeout| |outputs|cs|i x]; simpl.
  - rewrite (lock_free_lined_up p s Hl).
    destruct (lock_held (ctl s)); [discriminate|]. simpl. rewrite He.
    apply after_lined_up, Hl.
  - rewrite He. apply after_lined_up, Hl.
  - rewrite He. apply after_lined_up, Hl.
  - rewrite He. apply after_lined_up, Hl.
  - intros [= <-].
    assert (Hfin : finished (ctl s) = true).
    { rewrite <- Hc. unfold current.
      destruct (snoc_cases (callers p)) as [E|(l & c & E)]; rewrite E in *;
        [reflexivity|].
      rewrite last_snoc. rewrite forallb_app in Hone.
      apply andb_true_iff in Hone as [_ Hone]. simpl in Hone.
      by rewrite andb_true_r in Hone. }
    rewrite Hfin. eexists. split; [reflexivity|].
    repeat split; simpl; try assumption.
    + unfold current. simpl. apply last_snoc.
    + rewrite removelast_last. exact Hone.
  - destruct (callers p !! i) as [c|] eqn:Hi; [|discriminate].
    destruct (takes_lock c && negb (lock_free (callers p))); [discriminate|].
    destruct (advance x (mkSys (engine p) (disk p) c)) as [s1|] eqn:Hadv;
      [|discriminate].
    intros [= <-]. unfold current in *.
    destruct (snoc_cases (callers p)) as [E|(l & d & E)]; rewrite E in *;
      [discriminate|].
    rewrite last_snoc in Hc.
    rewrite removelast_last in Hd.
    destruct (decide (i = length l)) as [->|Hne].
    + rewrite lookup_app_r in Hi by lia. rewrite Nat.sub_diag in Hi.
      injection Hi as <-. subst d.
      exists s1. split.
      * rewrite <- Hadv. f_equal. destruct s; simpl in *; congruence.
      * repeat split; simpl.
        -- unfold current. simpl.
           rewrite insert_app_r_alt by lia. rewrite Nat.sub_diag. simpl.
           apply last_snoc.
        -- rewrite insert_app_r_alt by lia. rewrite Nat.sub_diag. simpl.
           rewrite removelast_last. exact Hd.
    + exfalso.
      assert (Hlt : (i < length l)%nat).
      { apply lookup_lt_Some in Hi. rewrite length_app in Hi. simpl in Hi. lia. }
      rewrite lookup_app_l in Hi by exact Hlt.
      rewrite forallb_forall in Hd.
      assert (Hfin : finished c = true).
      { apply Hd. apply list_elem_of_In. eapply list_elem_of_lookup_2, Hi. }
      unfold advance in Hadv. simpl in Hadv. destruct c; discriminate.
Qed.

Lemma run_lined_up (acts : list action) (p p' : threads) (s : sys) :
  lined_up p s -> one_at_a_time acts p = true -> run acts p = Some p' ->
  exists s', solo_run acts s = Some s' /\ lined_up p' s'.
Proof.
  revert p s. induction acts as [|a acts IH]; intros p s Hl Hone; simpl.
  - intros [= <-]. exists s. split; [reflexivity|exact Hl].
  - simpl in Hone. apply andb_true_iff in Hone as [Hnow Hlater].
    destruct (step a p) as [p1|] eqn:Hstep; [|discriminate].
    intros Hrun.
    assert (Hcond : match a with
                    | Update _ => forallb finished (callers p) = true
                    | _ => True
                    end) by (destruct a; auto).
    destruct (step_lined_up a p p1 s Hl Hcond Hstep) as (s1 & Hsolo & Hl1).
    rewrite Hsolo. apply (IH p1 s1 Hl1 Hlater Hrun).
Qed.

Lemma start_lined_up (class_names : list string) (files : Files) :
  lined_up (start class_names files) (init class_names files).
Proof. repeat split. Qed.

(** While the model is rebuilt the pipeline is empty. *)
Lemma rebuilding_drained (s : sys) :
  inv s -> rebuilding (ctl s) = true ->
  in_flight (eng s) = 0%nat /\ _outstanding_frames (eng s) = 0
  /\ _stopped (eng s) = true.
Proof.
  intros (Hs & Hstop & _ & Hre & _) Hr.
  specialize (Hre Hr). specialize (Hstop Hre).
  unfold surplus in Hs. repeat split; [lia|lia|exact Hre].
Qed.

(** The statements of a call that runs alone are steps of the
    program. *)
Lemma advance_all_is_run (fuel : nat) (tools : pc -> ext) (s s' : sys) :
  advance_all fuel tools s = Some s' ->
  exists acts, solo_run acts s = Some s'.
Proof.
  revert s. induction fuel as [|fuel IH]; intros s; simpl.
  - destruct (ctl s); try discriminate; intros [= <-]; by exists [].
  - destruct (ctl s) eqn:Hc;
      try (intros [= <-]; by exists []);
      (destruct (advance (tools (ctl s)) s) as [s1|] eqn:Hadv;
       rewrite Hc in Hadv; rewrite Hadv; [|discriminate];
       intros Hrest; destruct (IH _ Hrest) as [acts Hacts];
       exists (Advance 0 (tools (ctl s)) :: acts); simpl;
       rewrite Hc, Hadv; exact Hacts).
Qed.

(** C5, as the code has it. In every state the program can reach
    from its start while no call of [update_classes] begins before
    the calls before it have ended, whatever the threads did:
    - while the caller of [update_classes] is between the end of
      [stop] and the release of the accelerator, the pipeline holds
      no frame, the counter is zero and the engine is stopped; the
      output callback cannot run, [get] delivers nothing and [put]
      drops its frame;
    - at the moment [update_classes(cs)] releases the accelerator
      the pipeline is still empty, so nothing submitted earlier
      is left to be delivered;
    - from then on the model, the predictor, the class list and
      the selection are [cs]; the accelerator's post-processing
      model is [cs] too when the compiler left its file for this
      call. *)
Theorem update_classes_drains_then_rebuilds
    (class_names : list string) (files : Files) (acts : list action) (p : threads) :
  run acts (start class_names files) = Some p ->
  one_at_a_time acts (start class_names files) = true ->
  (rebuilding (current p) = true ->
     in_flight (engine p) = 0%nat /\ _outstanding_frames (engine p) = 0
     /\ _stopped (engine p) = true
     /\ (forall outputs, step (Sink outputs) p = None)
     /\ (forall block timeout p', step (Get block timeout) p = Some p' -> p' = p)
     /\ (forall data block timeout, step (Put data block timeout) p = Some p))
  /\ (forall cs d i x p',
        callers p !! i = Some (AtResume cs d) -> step (Advance i x) p = Some p' ->
        current p' = Returned cs d /\ in_flight (engine p') = 0%nat
        /\ _outstanding_frames (engine p') = 0 /\ _stopped (engine p') = false)
  /\ (forall cs d,
        current p = Returned cs d ->
        configured (engine p) cs
        /\ (d = true -> _accl (engine p) = Some {| accl_post := Some cs |})).
Proof.
  intros Hrun Hone.
  destruct (run_lined_up acts _ p _ (start_lined_up class_names files) Hone Hrun)
    as (s & Hsolo & Hl).
  pose proof (inv_run acts _ s (inv_init class_names files) Hsolo) as Hinv.
  pose proof Hl as (He & Hf & Hc & Hd).
  split; [|split].
  - rewrite Hc, He. intros Hr.
    destruct (rebuilding_drained s Hinv Hr) as (Hfl & Hout & Hst).
    repeat split; try assumption.
    + intros outputs. simpl. rewrite He. unfold _data_sink.
      rewrite EngineFacts.queue_get_blocking.
      unfold in_flight in Hfl.
      destruct (Queue.items (middle_q (eng s))); [reflexivity|].
      rewrite length_cons in Hfl. lia.
    + intros block timeout p'. simpl. rewrite He. unfold get.
      unfold in_flight in Hfl.
      destruct (EngineFacts.queue_get_cases (output_q (eng s)) block timeout)
        as [(fr & rest & Hit & E)|[[err E]|E]]; rewrite E; simpl.
      * rewrite Hit, length_cons in Hfl. lia.
      * intros [= <-]. destruct p; simpl in *; congruence.
      * discriminate.
    + intros data block timeout. simpl.
      rewrite (lock_free_lined_up p s Hl).
      destruct (ctl s); try discriminate; simpl;
        unfold put; rewrite He, Hst; simpl; destruct p; simpl in *; congruence.
  - intros cs d i x p' Hi Hstep.
    destruct (step_lined_up (Advance i x) p p' s Hl I Hstep) as (s' & Hadv & Hl').
    simpl in Hstep. rewrite Hi in Hstep.
    assert (Hcur : ctl s = AtResume cs d).
    { destruct (takes_lock (AtResume cs d) && negb (lock_free (callers p)));
        [discriminate|].
      unfold current in Hc.
      destruct (snoc_cases (callers p)) as [E|(l & c & E)]; rewrite E in *;
        [discriminate|].
      rewrite last_snoc in Hc. rewrite removelast_last in Hd. subst c.
      destruct (decide (i = length l)) as [->|Hne].
      - rewrite lookup_app_r in Hi by lia. rewrite Nat.sub_diag in Hi.
        by injection Hi as ->.
      - assert (Hlt : (i < length l)%nat).
        { apply lookup_lt_Some in Hi. rewrite length_app in Hi. simpl in Hi. lia. }
        rewrite lookup_app_l in Hi by exact Hlt.
        rewrite forallb_forall in Hd.
        assert (Hfin : finished (AtResume cs d) = true).
        { apply Hd. apply list_elem_of_In. eapply list_elem_of_lookup_2, Hi. }
        discriminate. }
    simpl in Hadv. unfold advance in Hadv. rewrite Hcur in Hadv.
    injection Hadv as <-.
    destruct Hl' as (He' & _ & Hc' & _). rewrite Hc', He'. simpl.
    assert (Hr : rebuilding (ctl s) = true) by (rewrite Hcur; reflexivity).
    destruct (rebuilding_drained s Hinv Hr) as (Hfl & Hout & Hst).
    destruct s as [e f c]; destruct e; simpl in *. auto.
  - intros cs d Hcur. rewrite Hc in Hcur. rewrite He.
    destruct Hinv as (_ & _ & _ & _ & Hex).
    rewrite Hcur in Hex. exact Hex.
Qed.

End WithBackends.

(** Three frames in flight when [update_classes(["dog"])] is called
    (scenario 3 of the specification), with the accelerator serving
    them during the drain and every tool delivering. *)
Definition raw_outputs : list (@Tensor Standin.runtime) := [tt; tt].

Definition three_in_flight : list (@action Standin.runtime) :=
  let frame := Some (Standin.framedata false false) in
  [ Put frame true None; Source; Put frame true None; Source;
    Put frame true None;
    Update ["dog"]; Advance 0 Delivers; Advance 0 Delivers; Advance 0 Delivers;
    Sink raw_outputs; Advance 0 Delivers;
    Sink raw_outputs; Source; Advance 0 Delivers;
    Sink raw_outputs; Advance 0 Delivers;
    Advance 0 Delivers; Advance 0 Delivers; Source;
    Advance 0 Delivers; Advance 0 Delivers; Put frame true None;
    Advance 0 Delivers; Advance 0 Delivers;
    Advance 0 Delivers; Advance 0 Delivers; Advance 0 Delivers; Advance 0 Delivers;
    Advance 0 Delivers ].

Definition reconfigured : threads :=
  Eval vm_compute in
    default (start ["person"] Standin.disk)
            (run (cv := Standin.cv2) three_in_flight (start ["person"] Standin.disk)).

Lemma update_classes_drains_then_rebuilds_witness :
  current reconfigured = Returned ["dog"] true
  /\ configured (engine reconfigured) ["dog"]
  /\ _accl (engine reconfigured) = Some {| accl_post := Some ["dog"] |}.
Proof.
  assert (Hrun : run (cv := Standin.cv2) three_in_flight (start ["person"] Standin.disk)
                 = Some reconfigured) by (vm_compute; reflexivity).
  assert (Hone : one_at_a_time (cv := Standin.cv2) three_in_flight
                   (start ["person"] Standin.disk) = true)
    by (vm_compute; reflexivity).
  destruct (update_classes_drains_then_rebuilds (cv := Standin.cv2)
              ["person"] Standin.disk three_in_flight reconfigured Hrun Hone)
    as (_ & _ & Hret).
  destruct (Hret ["dog"] true eq_refl) as (Hcfg & Haccl).
  split; [reflexivity|]. split; [exact Hcfg | exact (Haccl eq_refl)].
Defined.

(** Every tool does its work, except that the compiler leaves no
    post-processing file. *)
Definition no_post_file (c : pc) : ext :=
  match c with
  | AtCompile _ => Silent
  | _ => Delivers
  end.

(** C5 as stated fails when the compiler leaves no post-processing
    file: [update_classes(["dog"])] prints its warning and returns,
    and the accelerator it reconnected runs the post-processing model
    of the old class list next to the predictor of the new one. *)
Lemma update_classes_keeps_stale_post_model :
  exists s : sys,
    update_classes 16 no_post_file (init ["person"] Standin.disk) ["dog"] = Some s
    /\ ctl s = Returned ["dog"] false
    /\ p_classes (_predictor (eng s)) = ["dog"]
    /\ classes (eng s) = ["dog"]
    /\ _accl (eng s) = Some {| accl_post := Some ["person"] |}.
Proof.
  eexists. split; [vm_compute; reflexivity|]. repeat split.
Qed.

(** A second thread calls [update_classes(["cat"])] while the first
    call, for [["dog"]], is exporting its model. Its [stop] returns at
    once, the engine being stopped already; the first call then
    releases the accelerator and returns, and a frame is submitted,
    processed and delivered while the second call is still
    rebuilding, by an engine that the call for [["dog"]] has left
    configured for [["cat"]]. *)
Definition overlapping : list (@action Standin.runtime) :=
  let frame := Some (Standin.framedata false false) in
  [ Update ["dog"];
    Advance 0 Delivers; Advance 0 Delivers; Advance 0 Delivers; Advance 0 Delivers;
    Advance 0 Delivers; Advance 0 Delivers; Advance 0 Delivers; Advance 0 Delivers;
    Update ["cat"];
    Advance 1 Delivers; Advance 1 Delivers; Advance 1 Delivers;
    Advance 1 Delivers; Advance 1 Delivers;
    Advance 0 Delivers; Advance 0 Delivers; Advance 0 Delivers; Advance 0 Delivers;
    Advance 0 Delivers;
    Source; Put frame true None; Source; Sink raw_outputs; Get true None ].

Lemma overlapping_calls_process_frames :
  exists p : threads,
    run (cv := Standin.cv2) overlapping (start ["person"] Standin.disk) = Some p
    /\ one_at_a_time (cv := Standin.cv2) overlapping (start ["person"] Standin.disk)
       = false
    /\ callers p = [Returned ["dog"] true; AtExport ["cat"]]
    /\ _stopped (engine p) = false
    /\ _outstanding_frames (engine p) = 0
    /\ classes (engine p) = ["cat"]
    /\ p_classes (_predictor (engine p)) = ["cat"]
    /\ _accl (engine p) = Some {| accl_post := Some ["cat"] |}.
Proof.
  eexists. split; [vm_compute; reflexivity|]. repeat split.
Qed.

End ReconfigFacts.

(** ** Alerts *)

Module AlertFacts.

Import Demo.

(** A tracked object whose name is a search target. *)
Definition is_target (targets : gset string) (o : TrackedObject) : Prop :=
  truthy (name o) = true /\ name o ∈ targets.

#[export] Instance is_target_dec targets o : Decision (is_target targets o).
Proof. unfold is_target. apply _. Defined.


(** A search target whose track was not visible the frame before. *)
Definition newly_visible (targets : gset string) (previous : gset Z)
    (o : TrackedObject) : Prop :=
  is_target targets o /\ track_id o ∉ previous.

#[export] Instance newly_visible_dec targets previous o :
  Decision (newly_visible targets previous o).
Proof. unfold newly_visible. apply _. Defined.













Definition alice (tid : Z) : TrackedObject := {| track_id := tid; name := "Alice" |}.
Definition watching : t := init None {[ "Alice" ]}.


(** Scenario 4 of the specification: visible in frames 1 and 2
    under track 1, gone in frame 3, back in frame 4 under track 2;
    and the same with track 1 again in frame 4. *)
Example alert_scenario :
  alerts (check_frames watching [[alice 1]]) = ["Alice"]
  /\ alerts (check_frames watching [[alice 1]; [alice 1]]) = ["Alice"]
  /\ alerts (check_frames watching [[alice 1]; [alice 1]; []]) = ["Alice"]
  /\ alerts (check_frames watching [[alice 1]; [alice 1]; []; [alice 2]])
     = ["Alice"; "Alice"]
  /\ alerts (check_frames watching [[alice 1]; [alice 1]; []; [alice 1]])
     = ["Alice"; "Alice"].
Proof. repeat split; vm_compute; reflexivity. Qed.

End AlertFacts.

(** ** Enrollment *)

Module EnrollFacts.

Import Py Demo.

(** *** The numbered file names *)

Lemma string_length_app (a b : string) :
  String.length (a +:+ b) = (String.length a + String.length b)%nat.
Proof. induction a as [|c a IH]; simpl; [reflexivity|by rewrite IH]. Qed.

Lemma string_app_inv_tail (a b c : string) : a +:+ c = b +:+ c -> a = b.
Proof.
  intros H.
  assert (Hlen : String.length a = String.length b).
  { apply (f_equal String.length) in H. rewrite !string_length_app in H. lia. }
  revert b H Hlen. induction a as [|x a IH]; intros [|y b] H Hlen;
    try discriminate; [reflexivity|].
  simpl in H. injection H as -> H. f_equal. apply IH; [exact H|].
  simpl in Hlen. lia.
Qed.

Lemma digit_is_no_slash (x : N) : pretty_N_char x <> "/"%char.
Proof. unfold pretty_N_char. repeat case_match; discriminate. Qed.

Lemma pretty_N_go_head (x : N) (s : string) :
  (0 < x)%N ->
  exists c rest, pretty_N_go x s = String c rest /\ c <> "/"%char.
Proof.
  revert s. induction (N.lt_wf_0 x) as [x _ IH]; intros s Hx.
  rewrite pretty_N_go_step by exact Hx.
  destruct (decide (x `div` 10 = 0)%N) as [Hz|Hz].
  - rewrite Hz, pretty_N_go_0. eauto using digit_is_no_slash.
  - apply IH; [apply N.div_lt; [exact Hx|reflexivity] | by apply N.neq_0_lt_0].
Qed.

Lemma pretty_nat_head (i : nat) :
  exists c rest, pretty i = String c rest /\ c <> "/"%char.
Proof.
  unfold pretty, pretty_nat, pretty, pretty_N.
  destruct (decide (N.of_nat i = 0)%N) as [Hz|Hz].
  - exists "0"%char, "". split; [reflexivity|discriminate].
  - apply pretty_N_go_head. lia.
Qed.

Lemma file_name_is_relative (i : nat) :
  starts_with_slash (pretty i +:+ ".jpg") = false.
Proof.
  destruct (pretty_nat_head i) as (c & rest & -> & Hc). simpl.
  by apply bool_decide_eq_false.
Qed.

Lemma numbered_inj (profile_path : string) (i j : nat) :
  numbered profile_path i = numbered profile_path j -> i = j.
Proof.
  unfold numbered, os_path_join. rewrite !file_name_is_relative.
  intros H.
  assert (Hname : pretty i +:+ ".jpg" = pretty j +:+ ".jpg").
  { destruct (negb (truthy profile_path) || ends_with_slash profile_path).
    - by apply (inj (String.app profile_path)) in H.
    - apply (inj (String.app profile_path)) in H.
      by apply (inj (String.app "/")) in H. }
  apply string_app_inv_tail in Hname. by apply (inj pretty) in Hname.
Qed.

(** A set that holds the files numbered [0 .. k-1] has at least
    [k] elements. *)
Lemma numbered_files_fit (ps : gset string) (profile_path : string) (k : nat) :
  (forall j, (j < k)%nat -> numbered profile_path j ∈ ps) -> (k <= size ps)%nat.
Proof.
  intros Hall.
  set (l := numbered profile_path <$> seq 0 k).
  assert (Hnd : NoDup l).
  { apply NoDup_fmap_2_strong; [|apply NoDup_seq].
    intros i j _ _. apply numbered_inj. }
  assert (Hsub : list_to_set (C := gset string) l ⊆ ps).
  { intros x Hx. apply elem_of_list_to_set in Hx.
    apply list_elem_of_fmap in Hx as (j & -> & Hj).
    apply elem_of_seq in Hj. apply Hall. lia. }
  apply subseteq_size in Hsub.
  rewrite size_list_to_set in Hsub by exact Hnd.
  unfold l in Hsub. rewrite length_fmap, length_seq in Hsub. exact Hsub.
Qed.

Lemma first_free_from (ps : gset string) (profile_path : string) (n i : nat) :
  (forall j, (j < i)%nat -> numbered profile_path j ∈ ps) ->
  (size ps <= n + i)%nat ->
  (numbered profile_path (first_free ps profile_path n i) ∉ ps)
  /\ (forall j, (j < first_free ps profile_path n i)%nat -> numbered profile_path j ∈ ps).
Proof.
  revert i. induction n as [|n IH]; intros i Hbelow Hsize; simpl.
  - split; [|exact Hbelow].
    intros Hin.
    assert (S i <= size ps)%nat; [|lia].
    apply (numbered_files_fit ps profile_path). intros j Hj.
    destruct (decide (j = i)) as [->|Hne]; [exact Hin|apply Hbelow; lia].
  - destruct (decide (numbered profile_path i ∈ ps)) as [Hin|Hin].
    + rewrite (bool_decide_eq_true_2 _ Hin). apply IH; [|lia].
      intros j Hj. destruct (decide (j = i)) as [->|Hne]; [exact Hin|apply Hbelow; lia].
    + rewrite (bool_decide_eq_false_2 _ Hin). split; [exact Hin|exact Hbelow].
Qed.

(** The index the numbering loop ends with: the first one whose file
    does not exist. The loop ends, because only finitely many paths
    exist. *)
Lemma first_free_spec (ps : gset string) (profile_path : string) :
  (numbered profile_path (first_free ps profile_path (size ps) 0) ∉ ps)
  /\ (forall j, (j < first_free ps profile_path (size ps) 0)%nat ->
                numbered profile_path j ∈ ps).
Proof. apply first_free_from; [intros j Hj; lia | lia]. Qed.

(** *** The enrollment call *)

(** The embedding the [try] block ends with: the one the polling
    loop finds, provided the request went onto the recognition
    queue. *)
Definition populated (env : Env) (face_data : FaceData) : option (list Q) :=
  match fd_keypoints face_data with
  | _ :: _ :: _ =>
      match recognize_put env with
      | Ok _ => poll env (polls env)
      | Raise _ => None
      end
  | _ => None
  end.

(** The profile directory the save step settles on, if any, and the
    paths that exist once it has. *)
Definition chosen_profile (self : t) (env : Env) (ps : gset string)
  : option string * gset string :=
  if truthy (str_or_none (selected_directory env)) then
    (Some (str_or_none (selected_directory env)), ps)
  else if truthy (str_or_none (target_name self)) then
    (Some (os_path_join (db_path env) (str_or_none (target_name self))),
     ps ∪ {[ os_path_join (db_path env) (str_or_none (target_name self)) ]})
  else
    (if truthy (str_or_none (add_profile env ps).1)
     then Some (os_path_join (db_path env) (str_or_none (add_profile env ps).1))
     else None,
     (add_profile env ps).2).

(** What has been persisted between two worlds: nothing; or one
    gallery entry for the file numbered with the first free index
    under [dir], and that file when [cv2.imwrite] managed to write
    it. *)
Definition unchanged (ps : gset string) (w w' : World) : Prop :=
  paths w' = ps /\ written w' = written w /\ database w' = database w.

Definition persisted (env : Env) (ps : gset string) (dir : string) (img : Np.image)
    (emb : list Q) (w w' : World) : Prop :=
  exists (i : nat) (bgr : Np.image),
    (numbered dir i ∉ ps)
    /\ (forall j, (j < i)%nat -> numbered dir j ∈ ps)
    /\ cvtColor img = Ok bgr
    /\ database w' = database w ++ [(emb, numbered dir i)]
    /\ if imwrite_ok env (numbered dir i)
       then paths w' = ps ∪ {[ numbered dir i ]}
            /\ written w' = written w ++ [(numbered dir i, bgr)]
       else paths w' = ps /\ written w' = written w.

(** How the save step ends for the directory it has settled on: it
    saves when the directory exists and is not the gallery's root,
    raising the [cv2.error] of [cv2.cvtColor] instead when the crop
    is empty. *)
Definition settled (env : Env) (ps : gset string) (dir : option string)
    (img : Np.image) (emb : list Q) (w : World) (c : call unit) : Prop :=
  match dir with
  | Some dir =>
      if decide (dir ∈ ps /\ Path dir <> Path (db_path env)) then
        if is_empty img
        then exists w', c = Raises Cv2Error w' /\ unchanged ps w w'
        else exists w', c = Returns tt w' /\ persisted env ps dir img emb w w'
      else exists w', c = Returns tt w' /\ unchanged ps w w'
  | None => exists w', c = Returns tt w' /\ unchanged ps w w'
  end.

Lemma poll_norm (env : Env) (ps : list (option Entry)) (emb : list Q) :
  poll env ps = Some emb -> norm_positive env emb = true.
Proof.
  induction ps as [|[obj|] ps IH]; simpl; try done.
  destruct (e_embedding obj) as [v|]; [|exact IH].
  destruct (norm_positive env v) eqn:Hv; [|exact IH].
  by intros [= <-].
Qed.

Lemma recognize_face_spec (env : Env) (w : World) (face_data : FaceData)
    (image : Np.image) :
  (recognize_face env w face_data image).1.1
  = mkWorld (delete manual_track_id (tracker_dict w)) (paths w) (written w) (database w)
  /\ (recognize_face env w face_data image).2 = populated env face_data.
Proof.
  unfold recognize_face, populated.
  destruct (fd_bbox face_data) as [[[x y] w_] h].
  destruct (fd_keypoints face_data) as [|k0 [|k1 ks]]; simpl;
    try (split; [by rewrite delete_insert_eq|reflexivity]).
  destruct (recognize_put env) as [[]|e]; simpl;
    [destruct (poll env (polls env))|]; simpl;
    (split; [by rewrite delete_insert_eq|reflexivity]).
Qed.

Lemma store_spec (env : Env) (w : World) (dir : string)
    (img : Np.image) (emb : list Q) :
  if is_empty img
  then store env w dir img emb = Raises Cv2Error w
  else exists w', store env w dir img emb = Returns tt w'
                  /\ persisted env (paths w) dir img emb w w'
                  /\ tracker_dict w' = tracker_dict w.
Proof.
  unfold store, cvtColor. destruct (is_empty img) eqn:Hempty; [reflexivity|].
  eexists. split; [reflexivity|]. split.
  - exists (first_free (paths w) dir (size (paths w)) 0). eexists.
    destruct (first_free_spec (paths w) dir) as [Hfree Hbelow].
    split; [exact Hfree|]. split; [exact Hbelow|].
    unfold cvtColor. rewrite Hempty. split; [reflexivity|].
    unfold imwrite, add_to_database.
    destruct (imwrite_ok env _); simpl; repeat split; reflexivity.
  - unfold imwrite, add_to_database. destruct (imwrite_ok env _); reflexivity.
Qed.

Lemma store_in_profile_spec (env : Env) (w : World) (dir : string)
    (img : Np.image) (emb : list Q) :
  settled env (paths w) (Some dir) img emb w (store_in_profile env w dir img emb)
  /\ tracker_dict (world_of (store_in_profile env w dir img emb)) = tracker_dict w.
Proof.
  unfold store_in_profile, settled.
  pose proof (store_spec env w dir img emb) as Hstore.
  destruct (decide (dir ∈ paths w /\ Path dir <> Path (db_path env))) as [[Hin Hne]|Hno].
  - rewrite (bool_decide_eq_true_2 _ Hin), (bool_decide_eq_false_2 _ Hne). simpl.
    destruct (is_empty img).
    + rewrite Hstore. split; [|reflexivity].
      eexists. split; [reflexivity|]. repeat split.
    + destruct Hstore as (w' & -> & Hp & Hd). split; [|exact Hd].
      exists w'. split; [reflexivity|exact Hp].
  - destruct (bool_decide (dir ∈ paths w)) eqn:Hin;
      destruct (bool_decide (Path dir = Path (db_path env))) eqn:Hp; simpl;
      try (split; [|reflexivity]; eexists; split; [reflexivity|]; repeat split).
    exfalso. apply Hno. split.
    + by apply bool_decide_eq_true in Hin.
    + by apply bool_decide_eq_false in Hp.
Qed.

Lemma save_to_database_spec (self : t) (env : Env) (w : World)
    (img : Np.image) (emb : list Q) :
  settled env (chosen_profile self env (paths w)).2
          (chosen_profile self env (paths w)).1 img emb w
          (save_to_database self env w img emb)
  /\ tracker_dict (world_of (save_to_database self env w img emb)) = tracker_dict w.
Proof.
  unfold save_to_database, chosen_profile.
  destruct (truthy (str_or_none (selected_directory env))).
  - apply store_in_profile_spec.
  - destruct (truthy (str_or_none (target_name self))).
    + set (dir := os_path_join (db_path env) (str_or_none (target_name self))).
      pose proof (store_in_profile_spec env (makedirs_if_absent w dir) dir img emb)
        as [H Hd].
      assert (Hp : paths (makedirs_if_absent w dir) = paths w ∪ {[dir]}).
      { unfold makedirs_if_absent. destruct (decide (dir ∈ paths w)) as [Hin|Hin].
        - rewrite (bool_decide_eq_true_2 _ Hin).
          rewrite (comm_L (∪)). symmetry.
          by apply subseteq_union_1_L, singleton_subseteq_l.
        - rewrite (bool_decide_eq_false_2 _ Hin). reflexivity. }
      assert (Hw : written (makedirs_if_absent w dir) = written w
                   /\ database (makedirs_if_absent w dir) = database w
                   /\ tracker_dict (makedirs_if_absent w dir) = tracker_dict w).
      { unfold makedirs_if_absent. destruct (bool_decide (dir ∈ paths w)); by repeat split. }
      destruct Hw as (Hw & Hdb & Htd). rewrite Hp in H. rewrite Hd, Htd.
      split; [|reflexivity]. simpl.
      unfold settled, persisted, unchanged in *. rewrite ?Hw, ?Hdb in H. exact H.
    + destruct (add_profile env (paths w)) as [new_profile ps] eqn:Hadd. simpl.
      destruct (truthy (str_or_none new_profile)).
      * apply (store_in_profile_spec env
                 (mkWorld (tracker_dict w) ps (written w) (database w))).
      * split; [|reflexivity]. eexists. split; [reflexivity|]. repeat split.
Qed.

(** Whatever else happens, the call leaves the track map without
    an entry under the reserved identifier. *)
Lemma enrollment_dict (self : t) (env : Env) (w : World)
    (face_data : FaceData) (image : Np.image) :
  tracker_dict (world_of (process_face_like_mouse_click self env w face_data image))
  = delete manual_track_id (tracker_dict w).
Proof.
  unfold process_face_like_mouse_click.
  destruct (recognize_face_spec env w face_data image) as [Hw _].
  destruct (recognize_face env w face_data image) as [[w1 cropped] found].
  simpl in Hw. subst w1.
  destruct found as [emb|]; [|reflexivity].
  destruct (save_to_database_spec self env
              (mkWorld (delete manual_track_id (tracker_dict w)) (paths w)
                       (written w) (database w)) cropped emb) as [_ Hdict].
  exact Hdict.
Qed.

(** C8, as the code has it. [process_face_like_mouse_click] removes
    the reserved entry from the track map however it ends. When no
    embedding of positive norm turned up in time, or the recognition
    request raised, it returns and has written no file and no gallery
    entry. When one turned up, the crop and the embedding are saved
    exactly when a profile directory is at hand (the selected one,
    else the one of [target_name], else the one just added in the
    dialog), exists, and is not the gallery's root: then an empty
    crop makes [cv2.cvtColor] raise, with nothing written; otherwise
    the gallery gets one entry for the file numbered with the first
    free index, and the file is there when [cv2.imwrite] managed to
    write it. So whatever is persisted, an embedding of positive
    norm was found. *)
Theorem enrollment_persists_after_recognition (self : t) (env : Env) (w : World)
    (face_data : FaceData) (image : Np.image) :
  let ended := process_face_like_mouse_click self env w face_data image in
  tracker_dict (world_of ended) = delete manual_track_id (tracker_dict w)
  /\ match populated env face_data with
     | None => exists w', ended = Returns tt w' /\ unchanged (paths w) w w'
     | Some emb =>
         norm_positive env emb = true
         /\ settled env (chosen_profile self env (paths w)).2
                    (chosen_profile self env (paths w)).1
                    (recognize_face env w face_data image).1.2 emb w ended
     end
  /\ (written (world_of ended) <> written w \/ database (world_of ended) <> database w ->
      exists emb, populated env face_data = Some emb /\ norm_positive env emb = true).
Proof.
  unfold process_face_like_mouse_click.
  destruct (recognize_face_spec env w face_data image) as [Hw Hfound].
  destruct (recognize_face env w face_data image) as [[w1 cropped] found] eqn:Hrec.
  simpl in Hw, Hfound. subst w1 found.
  assert (Hnorm : forall emb, populated env face_data = Some emb ->
                              norm_positive env emb = true).
  { unfold populated. intros emb.
    destruct (fd_keypoints face_data) as [|? [|? ?]]; try discriminate.
    destruct (recognize_put env); [apply poll_norm|discriminate]. }
  destruct (populated env face_data) as [emb|] eqn:Hpop; simpl.
  - destruct (save_to_database_spec self env
                (mkWorld (delete manual_track_id (tracker_dict w)) (paths w)
                         (written w) (database w)) cropped emb) as [Hsave Hdict].
    simpl in Hsave, Hdict.
    split; [exact Hdict|]. split; [split; [by apply Hnorm|]|].
    + unfold settled, persisted, unchanged in *. simpl in Hsave. exact Hsave.
    + intros _. exists emb. split; [reflexivity|by apply Hnorm].
  - split; [reflexivity|]. split; [eexists; split; [reflexivity|]; repeat split|].
    intros [H|H]; contradiction.
Qed.

(** An enrollment in which the recognition succeeds at the second
    poll. *)
Definition recognized : Entry :=
  {| e_bbox := (0, 0, 1, 1); e_keypoints := [(0, 0); (1, 1)];
     e_name := "Unknown"; e_embedding := Some [1%Q; 0%Q] |}.
Definition pending : Entry :=
  {| e_bbox := (0, 0, 1, 1); e_keypoints := [(0, 0); (1, 1)];
     e_name := "Unknown"; e_embedding := Some [0%Q; 0%Q] |}.
Definition face : FaceData :=
  {| fd_bbox := (0, 0, 1, 1); fd_keypoints := [(0, 0); (1, 1)] |}.
(** A face reported outside the image: the crop is empty. *)
Definition far_face : FaceData :=
  {| fd_bbox := (100, 100, 1, 1); fd_keypoints := [(100, 100); (101, 101)] |}.
Definition gallery : World :=
  mkWorld ∅ {[ "assets/db"; "assets/db/Alice"; "assets/db/Alice/0.jpg" ]} [] [].

(** A norm is positive when a component is not zero. *)
Definition some_component (v : list Q) : bool :=
  existsb (fun x => negb (Qeq_bool x 0)) v.

(** The operator has selected no profile, and closes the
    new-profile dialog without a name. *)
Definition dialog_cancelled : Env :=
  {| db_path := "assets/db"; recognize_put := Ok tt;
     polls := [Some pending; Some recognized];
     norm_positive := some_component;
     selected_directory := None;
     add_profile := fun ps => (None, ps);
     imwrite_ok := fun _ => true |}.

Definition alice_selected : Env :=
  {| db_path := "assets/db"; recognize_put := Ok tt;
     polls := [Some pending; Some recognized];
     norm_positive := some_component;
     selected_directory := Some "assets/db/Alice";
     add_profile := fun ps => (None, ps);
     imwrite_ok := fun _ => true |}.

(** The same, on a disk that takes no new file. *)
Definition disk_full : Env :=
  {| db_path := "assets/db"; recognize_put := Ok tt;
     polls := [Some pending; Some recognized];
     norm_positive := some_component;
     selected_directory := Some "assets/db/Alice";
     add_profile := fun ps => (None, ps);
     imwrite_ok := fun _ => false |}.

Definition operator : t := Demo.init None {[ "Alice" ]}.

(** The face is saved as the second image of Alice's profile. *)
Example enrollment_of_a_selected_profile :
  exists w' : World,
    process_face_like_mouse_click operator alice_selected gallery face Standin.frame
    = Returns tt w'
    /\ written w' = [("assets/db/Alice/1.jpg", [[(30, 20, 10)]])]
    /\ database w' = [([1%Q; 0%Q], "assets/db/Alice/1.jpg")].
Proof. eexists. split; [vm_compute; reflexivity|]. split; reflexivity. Qed.

(** C8 as stated fails in its "if" half. An embedding of positive
    norm was found in time, and yet: nothing is persisted when no
    profile directory is at hand; the call raises [cv2.error], with
    nothing persisted, when the crop is empty; and the gallery gets
    its entry without an image file when the file cannot be
    written. *)
Lemma recognized_but_not_persisted :
  populated dialog_cancelled face = Some [1%Q; 0%Q]
  /\ (exists w' : World,
        process_face_like_mouse_click operator dialog_cancelled gallery face
                                      Standin.frame = Returns tt w'
        /\ written w' = [] /\ database w' = [] /\ paths w' = paths gallery)
  /\ populated alice_selected far_face = Some [1%Q; 0%Q]
  /\ (exists w' : World,
        process_face_like_mouse_click operator alice_selected gallery far_face
                                      Standin.frame = Raises Cv2Error w'
        /\ written w' = [] /\ database w' = [] /\ paths w' = paths gallery)
  /\ (exists w' : World,
        process_face_like_mouse_click operator disk_full gallery face
                                      Standin.frame = Returns tt w'
        /\ written w' = [] /\ paths w' = paths gallery
        /\ database w' = [([1%Q; 0%Q], "assets/db/Alice/1.jpg")]).
Proof.
  split; [reflexivity|]. split.
  { eexists. split; [vm_compute; reflexivity|]. repeat split. }
  split; [reflexivity|]. split.
  { eexists. split; [vm_compute; reflexivity|]. repeat split. }
  eexists. split; [vm_compute; reflexivity|]. repeat split.
Qed.

(** *** The reserved identifier *)

(** A track map in which the live track 999 is followed. *)
Definition live : Entry :=
  {| e_bbox := (40, 40, 80, 80); e_keypoints := [(50, 50); (60, 50)];
     e_name := "Bob"; e_embedding := Some [0%Q; 1%Q] |}.
Definition crowded : World :=
  mkWorld {[ 999 := live ]} {[ "assets/db" ]} [] [].

Lemma store_keeps_dict (env : Env) (w : World) (dir : string)
    (img : Np.image) (emb : list Q) :
  tracker_dict (world_of (store env w dir img emb)) = tracker_dict w.
Proof.
  pose proof (store_spec env w dir img emb) as H.
  destruct (is_empty img); [by rewrite H|].
  destruct H as (w' & -> & _ & Hd). exact Hd.
Qed.

(** C7 fails on the code: the identifier of the synthetic entry is
    the constant 999, and the entry is assigned without a look at
    what the track map holds. Whatever the map held under 999, a live
    track included, is overwritten, and the clean-up deletes it: when
    either enrollment call has ended, by returning or by raising, the
    map has no entry under 999. *)
Theorem enrollment_evicts_live_track (self : t) (env : Env) (w : World)
    (face_data : FaceData) (image : Np.image) (profile_names : gset string) :
  tracker_dict
    (world_of (process_face_like_mouse_click self env w face_data image))
  !! manual_track_id = None
  /\ tracker_dict
       (world_of (process_target_face_automatically self env w face_data image
                                                    profile_names))
     !! manual_track_id = None
  /\ tracker_dict crowded !! manual_track_id = Some live
  /\ tracker_dict
       (world_of (process_face_like_mouse_click operator dialog_cancelled crowded
                                                face Standin.frame))
     = ∅.
Proof.
  split; [|split; [|split; [reflexivity|vm_compute; reflexivity]]].
  - rewrite (enrollment_dict self env w face_data image).
    apply lookup_delete_eq.
  - unfold process_target_face_automatically.
    destruct (recognize_face_spec env w face_data image) as [Hw _].
    destruct (recognize_face env w face_data image) as [[w1 cropped] found].
    simpl in Hw. subst w1.
    destruct found as [emb|]; [|apply lookup_delete_eq].
    destruct (target_name self) as [target|]; [|apply lookup_delete_eq].
    set (w1 := makedirs_if_absent _ _).
    assert (Hd1 : tracker_dict w1 = delete manual_track_id (tracker_dict w)).
    { unfold w1, makedirs_if_absent. case_match; reflexivity. }
    destruct (bool_decide _).
    + pose proof (store_keeps_dict env w1 (os_path_join (db_path env) target)
                    cropped emb) as Hs.
      destruct (store env w1 _ cropped emb); simpl in *;
        rewrite Hs, Hd1; apply lookup_delete_eq.
    + simpl. rewrite Hd1. apply lookup_delete_eq.
Qed.

End EnrollFacts.



(** ** The pipeline among all threads *)

Module PipelineFacts.

Import Py YoloE.





(** A call that ended, by returning or by raising: which way. *)
Ltac ended Ho :=
  destruct Ho as [[? Ho]|[? Ho]]; try discriminate Ho;
  inversion Ho; subst; clear Ho.




Section WithBackends.

Context `{cv : Cv2} `{rt : Runtime}.
























End WithBackends.






End PipelineFacts.

(** ** What [plot_dets] leaves of the frame *)

Module OverlayFacts.

Import Py YoloE.

Lemma paste_row_same (row : list Np.pixel) (m : list Z) :
  Np.paste_row row row m = row.
Proof.
  revert m. induction row as [|p row IH]; intros [|v m]; simpl; try reflexivity.
  rewrite IH. by destruct (v =? 255).
Qed.

Lemma paste_same (img : Np.image) (m : Np.mask) : Np.paste img img m = img.
Proof.
  revert m. induction img as [|row img IH]; intros [|v m]; simpl; try reflexivity.
  by rewrite IH, paste_row_same.
Qed.

Section WithCv2.

Context `{cv : Cv2}.

(** A detection the class filter excludes: its class name is found
    and is not in the filter. *)
Definition hidden (classes : names_t) (filter : option (list string))
    (d : Q * (Q * Q * Q * Q) * seg_t) : Prop :=
  exists class_name,
    class_name_of classes (fst (fst d)) = Ok class_name
    /\ filtered_out filter class_name = true.

Lemma mask_steps_hidden (classes : names_t) (filter : option (list string))
    (do_seg : bool) (acc : Np.mask * Np.image)
    (detections : list (Q * (Q * Q * Q * Q) * seg_t)) :
  Forall (hidden classes filter) detections ->
  foldM (mask_step classes filter do_seg) acc detections = Ok acc.
Proof.
  induction 1 as [|[[cls_idx xyxy] seg] l (class_name & Hname & Hout) _ IH];
    [reflexivity|].
  simpl in *. destruct acc as [mask_all overlay].
  unfold mbind, result_bind. rewrite Hname. simpl. rewrite Hout. exact IH.
Qed.

Lemma draw_steps_hidden (classes : names_t) (filter : option (list string))
    (do_det do_label : bool) (h w : Z) (res : Np.image)
    (detections : list (Q * (Q * Q * Q * Q) * seg_t)) :
  Forall (hidden classes filter) detections ->
  foldM (draw_step classes filter do_det do_label h w) res detections = Ok res.
Proof.
  induction 1 as [|[[cls_idx xyxy] seg] l (class_name & Hname & Hout) _ IH];
    [reflexivity|].
  simpl in *.
  unfold mbind, result_bind. rewrite Hname. simpl. rewrite Hout. exact IH.
Qed.

(** When the class filter excludes every detection, [plot_dets]
    paints nothing: whatever the overlay flags, it returns the
    background of its step 2 as it is (the frame, the black canvas or
    the blurred frame), and it calls no drawing function. *)
Theorem plot_dets_filter_hides_all
    (img : Np.image) (dets : Results) (filter : option (list string))
    (do_seg do_det do_label remove_background do_blur : bool)
    (alpha : Q) (blur_sigma : option Q)
    (detections : list (Q * (Q * Q * Q * Q) * seg_t)) :
  zipped dets = Ok detections ->
  Forall (hidden (names dets) filter) detections ->
  remove_background && do_blur = false ->
  plot_dets img dets filter do_seg do_det do_label remove_background do_blur
            alpha blur_sigma
  = RenderFacts.background img remove_background do_blur blur_sigma.
Proof.
  intros Hz Hhidden Hflags. unfold plot_dets, RenderFacts.background.
  destruct (Np.shape img) as [h w]. rewrite Hflags, Hz.
  assert (Hsig : match blur_sigma with Some v => v | None => 0%Q end
                 = default 0%Q blur_sigma) by (destruct blur_sigma; reflexivity).
  rewrite Hsig.
  assert (Hrest : forall base : Np.image,
    (acc ← foldM (mask_step (names dets) filter do_seg)
                 (Np.zeros h w, Np.zeros_like img) detections;
     let '(mask_all, overlay) := acc in
     res ← (if Np.any mask_all then
              if do_seg then
                blended_region ← addWeighted img (1 - alpha) overlay alpha 0;
                Ok (Np.paste (Np.copy base) blended_region mask_all)
              else Ok (Np.paste (Np.copy base) img mask_all)
            else Ok (Np.copy base));
     if do_det || do_label then
       detections ← Ok detections;
       foldM (draw_step (names dets) filter do_det do_label h w) res detections
     else Ok res) = Ok base).
  { intros base. rewrite (mask_steps_hidden _ _ _ _ _ Hhidden).
    unfold mbind, result_bind. simpl. rewrite RenderFacts.any_zeros. simpl.
    destruct (do_det || do_label); [|reflexivity].
    apply (draw_steps_hidden _ _ _ _ _ _ _ _ Hhidden). }
  destruct remove_background; simpl.
  - apply Hrest.
  - destruct (do_blur && lt 0 (default 0%Q blur_sigma)).
    + destruct (GaussianBlur img (default 0%Q blur_sigma)) as [b|e]; simpl;
        [apply Hrest|reflexivity].
    + simpl. apply Hrest.
Qed.

(** With the tint, the boxes and the labels off and the frame
    itself as background (no removal, and no blur or a blur without a
    positive sigma), [plot_dets] returns the frame as it got it,
    whatever was detected, unless it raises: the objects it pastes
    over the background are the frame's own pixels. *)
Theorem plot_dets_plain_keeps_frame
    (img : Np.image) (dets : Results) (filter : option (list string))
    (do_blur : bool) (alpha : Q) (blur_sigma : option Q) :
  do_blur && lt 0 (default 0%Q blur_sigma) = false ->
  plot_dets img dets filter false false false false do_blur alpha blur_sigma
  = Ok img
  \/ exists e,
       plot_dets img dets filter false false false false do_blur alpha blur_sigma
       = Raise e.
Proof.
  intros Hplain. unfold plot_dets.
  destruct (Np.shape img) as [h w]. simpl.
  assert (Hsig : match blur_sigma with Some v => v | None => 0%Q end
                 = default 0%Q blur_sigma) by (destruct blur_sigma; reflexivity).
  rewrite Hsig, Hplain. simpl.
  destruct (zipped dets) as [detections|e]; simpl; [|right; eauto].
  destruct (foldM (mask_step (names dets) filter false)
                  (Np.zeros h w, Np.zeros_like img) detections)
    as [[mask_all overlay]|e]; simpl; [|right; eauto].
  left. destruct (Np.any mask_all); simpl; [|reflexivity].
  unfold Np.copy. by rewrite paste_same.
Qed.

End WithCv2.

(** Two detections of class 0 (["person"]) with masks, and a filter
    that selects another class. *)
Definition two_persons : Results :=
  {| names := NamesList ["person"; "dog"];
     boxes_cls := [0%Q; 0%Q];
     boxes_xyxy := [(0, 0, 1, 1)%Q; (0, 0, 1, 1)%Q];
     masks := Some [Some [(0, 0)%Q]; None] |}.

Lemma plot_dets_filter_hides_all_witness :
  plot_dets (cv := Standin.cv2) Standin.frame two_persons (Some ["dog"])
            true true true true false (3 # 10) None
  = Ok [[(0, 0, 0)]].
Proof.
  apply (plot_dets_filter_hides_all (cv := Standin.cv2) Standin.frame two_persons
           (Some ["dog"]) true true true true false (3 # 10) None
           [(0%Q, (0, 0, 1, 1)%Q, Some [(0, 0)%Q]); (0%Q, (0, 0, 1, 1)%Q, None)]).
  - reflexivity.
  - repeat constructor; exists "person"; split; reflexivity.
  - reflexivity.
Defined.

Lemma plot_dets_plain_keeps_frame_witness :
  plot_dets (cv := Standin.cv2) Standin.frame two_persons None
            false false false false true (3 # 10) (Some 0%Q)
  = Ok Standin.frame
  \/ exists e,
       plot_dets (cv := Standin.cv2) Standin.frame two_persons None
                 false false false false true (3 # 10) (Some 0%Q)
       = Raise e.
Proof.
  apply (plot_dets_plain_keeps_frame (cv := Standin.cv2) Standin.frame two_persons
           None true (3 # 10) (Some 0%Q)).
  reflexivity.
Defined.

End OverlayFacts.

(** ** Stopping with no other thread acting *)

Module StopFacts.

Import Py YoloE.

(** The engine after [n] results were taken from its output queue
    by the drain loop. *)
Definition drained (s : t) (n : nat) : t :=
  with_outstanding_frames
    (with_output_q s (Queue.mk (Queue.maxsize (output_q s))
                               (drop n (Queue.items (output_q s)))))
    (_outstanding_frames s - Z.of_nat n).

Lemma drained_zero (s : t) : drained s 0 = s.
Proof.
  unfold drained. rewrite drop_0, Z.sub_0_r.
  destruct s as [? ? ? ? ? ? ? ? ? ? ? ? ? ? ? [? ?] ? ? ?]. reflexivity.
Qed.

Lemma tenth_is_not_negative : lt (1 # 10) 0 = false.
Proof. reflexivity. Qed.

(** A turn of the drain loop takes the first result, or goes on
    after [queue.Empty]. *)
Lemma drain_turn_cases (s : t) :
  drain_turn s
  = match Queue.items (output_q s) with
    | fr :: rest =>
        Returns tt (with_outstanding_frames
                      (with_output_q s (Queue.mk (Queue.maxsize (output_q s)) rest))
                      (_outstanding_frames s - 1))
    | [] => Returns tt s
    end.
Proof.
  unfold drain_turn, get.
  rewrite (EngineFacts.queue_get_timed _ _ tenth_is_not_negative).
  destruct (Queue.items (output_q s)); reflexivity.
Qed.

Lemma drain_ready (n : nat) (s : t) :
  _outstanding_frames s = Z.of_nat n ->
  (n <= length (Queue.items (output_q s)))%nat ->
  drain n s = Some (Returns tt (drained s n)).
Proof.
  revert s. induction n as [|n IH]; intros s Hout Hlen.
  - simpl. rewrite Hout. simpl. rewrite drained_zero. reflexivity.
  - simpl. rewrite Hout.
    assert (Hpos : (0 <? Z.of_nat (S n)) = true) by (apply Z.ltb_lt; lia).
    rewrite Hpos, drain_turn_cases.
    destruct (Queue.items (output_q s)) as [|fr rest] eqn:Hit; [simpl in Hlen; lia|].
    rewrite IH.
    + f_equal. f_equal. unfold drained. destruct s; cbn in *. rewrite Hit.
      cbn. f_equal. lia.
    + destruct s; cbn in *. lia.
    + destruct s; cbn in *. lia.
Qed.

Lemma drain_starved (fuel : nat) (s : t) :
  Z.of_nat (length (Queue.items (output_q s))) < _outstanding_frames s ->
  drain fuel s = None.
Proof.
  revert s. induction fuel as [|fuel IH]; intros s Hshort.
  - simpl. assert (Hpos : (0 <? _outstanding_frames s) = true) by (apply Z.ltb_lt; lia).
    rewrite Hpos. reflexivity.
  - simpl. assert (Hpos : (0 <? _outstanding_frames s) = true) by (apply Z.ltb_lt; lia).
    rewrite Hpos, drain_turn_cases.
    destruct (Queue.items (output_q s)) as [|fr rest] eqn:Hit.
    + apply IH. rewrite Hit. exact Hshort.
    + apply IH. destruct s; cbn in *. lia.
Qed.

(** [stop()] on a running engine, with no other thread acting,
    returns exactly when the output queue already holds as many
    results as the counter of outstanding frames says: it then throws
    those results away, sets the counter to zero, appends the
    sentinel to the input queue and marks the engine stopped (or stays
    parked on the input queue when that one is full). When fewer
    results are there, that is when a counted frame is still in the
    input or middle queue or was lost, the drain loop never ends,
    however long it runs. A second [stop()] returns at once and
    changes nothing. *)
Theorem stop_returns_iff_results_ready (s : t) (n : nat) :
  _stopped s = false ->
  _outstanding_frames s = Z.of_nat n ->
  ((n <= length (Queue.items (output_q s)))%nat ->
   (Queue.full (input_q s) = false ->
    exists s', stop n s = Some (Returns tt s')
      /\ _stopped s' = true /\ _outstanding_frames s' = 0
      /\ Queue.items (input_q s') = Queue.items (input_q s) ++ [None]
      /\ Queue.items (output_q s') = drop n (Queue.items (output_q s))
      /\ Queue.items (middle_q s') = Queue.items (middle_q s)
      /\ forall fuel, stop fuel s' = Some (Returns tt s'))
   /\ (Queue.full (input_q s) = true -> stop n s = Some Blocks))
  /\ ((length (Queue.items (output_q s)) < n)%nat ->
      forall fuel, stop fuel s = None).
Proof.
  intros Hrun Hout. split.
  - intros Hlen.
    assert (Hstop : stop n s = Some (stop_finish (drained s n))).
    { unfold stop. rewrite Hrun, (drain_ready n s Hout Hlen). reflexivity. }
    rewrite Hstop. unfold stop_finish. rewrite EngineFacts.queue_put_blocking.
    assert (Hin : input_q (drained s n) = input_q s) by (destruct s; reflexivity).
    rewrite Hin. split.
    + intros Hfull. rewrite Hfull. eexists. split; [reflexivity|].
      repeat split; destruct s; cbn in *; reflexivity || lia.
    + intros Hfull. rewrite Hfull. reflexivity.
  - intros Hlen fuel. unfold stop. rewrite Hrun, drain_starved; [reflexivity|lia].
Qed.

(** One frame was submitted and its result is ready. *)
Definition one_ready : t :=
  with_outstanding_frames
    (with_output_q EngineFacts.fresh
                   (Queue.mk 1 [AnnotatedFrame_of Standin.frame]))
    1.

Lemma stop_returns_iff_results_ready_witness :
  exists s', stop 1 one_ready = Some (Returns tt s')
             /\ _stopped s' = true /\ Queue.items (output_q s') = []
             /\ Queue.items (input_q s') = [None].
Proof.
  destruct (stop_returns_iff_results_ready one_ready 1 eq_refl eq_refl)
    as [Hready _].
  destruct (Hready ltac:(vm_compute; lia)) as (Hfree & _).
  destruct (Hfree eq_refl) as (s' & Hstop & Hst & _ & Hin & Hout & _).
  exists s'. repeat split; assumption.
Defined.

End StopFacts.

(** ** A reconfiguration whose tool raises *)

Module FailureFacts.

Import Py YoloE.

Section WithBackends.

Context `{cv : Cv2} `{rt : Runtime}.

(** A call of [update_classes] that ended with an exception left
    the engine stopped. *)
Definition left_stopped (s : sys) : Prop :=
  forall e, ctl s = Crashed e -> _stopped (eng s) = true.

Lemma advance_left_stopped (x : ext) (s s' : sys) :
  ReconfigFacts.inv s -> advance x s = Some s' -> left_stopped s'.
Proof.
  intros (_ & _ & _ & Hre & _). unfold advance, left_stopped.
  destruct s as [e f c]. simpl in *.
  destruct c; try discriminate; simpl in *.
  - destruct (_stopped e); intros [= <-]; simpl; discriminate.
  - intros [= <-]; simpl; discriminate.
  - destruct (0 <? _outstanding_frames e).
    + rewrite StopFacts.drain_turn_cases.
      destruct (Queue.items (output_q e)); intros [= <-]; simpl; discriminate.
    + intros [= <-]; simpl; discriminate.
  - unfold stop_finish. rewrite EngineFacts.queue_put_blocking.
    destruct (Queue.full (input_q e)); [discriminate|].
    intros [= <-]; simpl; discriminate.
  - destruct x; intros [= <-]; simpl; try discriminate. intros _ _. by apply Hre.
  - intros [= <-]; simpl; discriminate.
  - intros [= <-]; simpl; discriminate.
  - intros [= <-]; simpl; discriminate.
  - destruct x; intros [= <-]; simpl; try discriminate. intros _ _. by apply Hre.
  - destruct x; intros [= <-]; simpl; try discriminate. intros _ _. by apply Hre.
  - destruct (cwd_post f); intros [= <-]; simpl; discriminate.
  - destruct x; intros [= <-]; simpl; try discriminate. intros _ _. by apply Hre.
  - intros [= <-]; simpl; discriminate.
Qed.

Lemma seen_left_stopped {A} (s s' : sys) (o : outcome A) :
  left_stopped s -> ReconfigFacts.seen s o = Some s' ->
  (forall e', (exists u, o = Returns u e') \/ (exists err, o = Raises err e') ->
              ReconfigFacts.quiet (eng s) e') ->
  left_stopped s'.
Proof.
  intros Hleft Hseen Hquiet.
  apply ReconfigFacts.seen_ended in Hseen as (e' & -> & Hend).
  destruct (Hquiet e' Hend) as (Hst & _).
  intros e Hc. simpl in *. rewrite Hst. by apply (Hleft e).
Qed.

Lemma step_left_stopped (a : action) (s s' : sys) :
  ReconfigFacts.inv s -> left_stopped s -> ReconfigFacts.solo_step a s = Some s' ->
  left_stopped s'.
Proof.
  intros Hinv Hleft.
  destruct a as [data block timeout|block timeout| |outputs|cs|i x]; simpl.
  - destruct (lock_held (ctl s)); [discriminate|]. intros Hseen.
    apply (seen_left_stopped s s' _ Hleft Hseen). intros e' Hend.
    apply (ReconfigFacts.put_summary _ _ _ _ _ _ eq_refl Hend).
  - intros Hseen. apply (seen_left_stopped s s' _ Hleft Hseen). intros e' Hend.
    apply (ReconfigFacts.get_summary _ _ _ _ _ eq_refl Hend).
  - intros Hseen. apply (seen_left_stopped s s' _ Hleft Hseen). intros e' Hend.
    apply (ReconfigFacts.source_summary _ _ _ eq_refl Hend).
  - intros Hseen. apply (seen_left_stopped s s' _ Hleft Hseen). intros e' Hend.
    apply (ReconfigFacts.sink_summary _ _ _ _ eq_refl Hend).
  - destruct (finished (ctl s)); [|discriminate]. intros [= <-] e. discriminate.
  - apply advance_left_stopped, Hinv.
Qed.

Lemma run_left_stopped (acts : list action) (s s' : sys) :
  ReconfigFacts.inv s -> left_stopped s -> ReconfigFacts.solo_run acts s = Some s' ->
  left_stopped s'.
Proof.
  revert s. induction acts as [|a acts IH]; intros s Hinv Hleft; simpl.
  - intros [= <-]. exact Hleft.
  - destruct (ReconfigFacts.solo_step a s) as [s1|] eqn:Hstep; [|discriminate].
    apply IH.
    + eapply ReconfigFacts.inv_step; eassumption.
    + eapply step_left_stopped; eassumption.
Qed.

(** When a tool called by [update_classes] raises (the class
    assignment of the model, the export, the compiler or the
    accelerator driver), the call ends with the engine stopped and
    nothing restarts it: as long as no call of [update_classes]
    overlaps another, whenever the latest call has ended with an
    exception, the engine is stopped with an empty pipeline; every
    [put] returns normally and drops its frame, a blocking [get]
    waits forever, and the next call of [update_classes] finds the
    engine stopped and goes straight to rebuilding the model. *)
Theorem failed_update_leaves_engine_stopped
    (class_names : list string) (files : Files) (acts : list action)
    (p : threads) (e : exn) :
  run acts (start class_names files) = Some p ->
  one_at_a_time acts (start class_names files) = true ->
  ReconfigFacts.current p = Crashed e ->
  _stopped (engine p) = true
  /\ in_flight (engine p) = 0%nat /\ _outstanding_frames (engine p) = 0
  /\ (forall data block timeout, step (Put data block timeout) p = Some p)
  /\ step (Get true None) p = None
  /\ (forall cs x,
        run [Update cs; Advance (length (callers p)) x] p
        = Some (mkThreads (engine p) (disk p) (callers p ++ [AtSetClasses cs]))).
Proof.
  intros Hrun Hone Hcur.
  destruct (ReconfigFacts.run_lined_up acts _ p _
              (ReconfigFacts.start_lined_up class_names files) Hone Hrun)
    as (s & Hsolo & Hl).
  pose proof (ReconfigFacts.inv_run acts _ s
                (ReconfigFacts.inv_init class_names files) Hsolo) as Hinv.
  assert (Hleft : left_stopped s).
  { apply (run_left_stopped acts (init class_names files) s);
      [apply ReconfigFacts.inv_init| |exact Hsolo].
    intros e'. discriminate. }
  pose proof Hl as (He & Hf & Hc & Hd).
  assert (Hst : _stopped (engine p) = true).
  { rewrite He. apply (Hleft e). congruence. }
  destruct Hinv as (Hs & Hstop & _). rewrite <- He in Hs, Hstop.
  specialize (Hstop Hst). unfold ReconfigFacts.surplus in Hs.
  assert (Hfl : in_flight (engine p) = 0%nat) by lia.
  split; [exact Hst|]. split; [exact Hfl|]. split; [lia|].
  split; [|split].
  - intros data block timeout. simpl.
    rewrite (ReconfigFacts.lock_free_lined_up p s Hl), <- Hc, Hcur. simpl.
    unfold put. rewrite Hst. simpl. by destruct p.
  - simpl. unfold get. rewrite EngineFacts.queue_get_blocking.
    unfold in_flight in Hfl.
    destruct (Queue.items (output_q (engine p))); [reflexivity|].
    rewrite length_cons in Hfl. lia.
  - intros cs x. cbn [run step callers engine disk].
    rewrite lookup_app_r by lia. rewrite Nat.sub_diag. cbn [lookup list_lookup].
    cbn [takes_lock andb]. unfold advance. cbn [ctl eng YoloE.files]. rewrite Hst.
    cbn [eng YoloE.files ctl]. rewrite insert_app_r_alt by lia.
    rewrite Nat.sub_diag. reflexivity.
Qed.

End WithBackends.

(** [update_classes(["dog"])] on a fresh engine, the export
    raising. *)
Definition export_raises : list (action (rt := Standin.runtime)) :=
  [Update ["dog"]; Advance 0 Delivers; Advance 0 Delivers; Advance 0 Delivers;
   Advance 0 Delivers; Advance 0 Delivers; Advance 0 Delivers; Advance 0 Delivers;
   Advance 0 Delivers; Advance 0 Throws].

Definition after_failed_export : threads :=
  Eval vm_compute in
    default (start ["person"] Standin.disk)
            (run (cv := Standin.cv2) (rt := Standin.runtime) export_raises
                 (start ["person"] Standin.disk)).

Lemma failed_update_leaves_engine_stopped_witness :
  callers after_failed_export = [Crashed (RuntimeError "export")]
  /\ _stopped (engine after_failed_export) = true
  /\ step (cv := Standin.cv2) (rt := Standin.runtime)
          (Put (Some (Standin.framedata false false)) true None)
          after_failed_export
     = Some after_failed_export.
Proof.
  split; [reflexivity|].
  destruct (failed_update_leaves_engine_stopped (cv := Standin.cv2)
              (rt := Standin.runtime) ["person"] Standin.disk export_raises
              after_failed_export (RuntimeError "export"))
    as (Hst & _ & _ & Hput & _);
    [vm_compute; reflexivity|vm_compute; reflexivity|reflexivity|].
  split; [exact Hst|apply Hput].
Defined.

End FailureFacts.

(** ** Letterboxing *)

Module LetterboxFacts.

Import Py YoloE.

Section WithCv2.

Context `{cv : Cv2}.

Lemma copyMakeBorder_shape (img out : Np.image) (h w top bottom left right : Z) :
  Np.shape img = (h, w) -> 0 < h ->
  copyMakeBorder img top bottom left right = Ok out ->
  0 <= top /\ 0 <= bottom /\ 0 <= left /\ 0 <= right
  /\ Np.shape out = (top + h + bottom, left + w + right).
Proof.
  intros Hshape Hh. unfold copyMakeBorder.
  destruct ((top <? 0) || (bottom <? 0) || (left <? 0) || (right <? 0)) eqn:Hneg;
    [discriminate|].
  repeat (apply orb_false_elim in Hneg as [Hneg ?]).
  assert (0 <= top /\ 0 <= bottom /\ 0 <= left /\ 0 <= right) as (Ht & Hb & Hl & Hr)
    by (repeat split; apply Z.ltb_ge; assumption).
  intros [= <-]. repeat split; try assumption.
  unfold Np.shape in *. injection Hshape as Hlen Hw.
  rewrite Hw. f_equal.
  - rewrite !length_app, !repeat_length, length_map. lia.
  - destruct img as [|row img]; [simpl in Hlen; lia|].
    simpl in Hw. destruct (Z.to_nat top) as [|n] eqn:Hn; simpl.
    + rewrite !length_app, !repeat_length. lia.
    + rewrite repeat_length. lia.
Qed.

(** Whenever [letterbox] returns, and the resize delivers the shape
    it was asked for, the image returned is a square of side
    [img_size]; the frame was not empty; no padding is negative;
    opposite paddings differ by at most one, the extra pixel being on
    the right and at the bottom; and the paddings of an axis leave
    room for at least one pixel of the frame. *)
Theorem letterbox_returns_square (frame img : Np.image) (img_size : Z)
    (pad_left pad_top pad_right pad_bottom : Z) :
  (forall f w h, 0 < w -> 0 < h -> Np.shape (interpolate f w h) = (h, w)) ->
  letterbox frame img_size = Ok (img, (pad_left, pad_top, pad_right, pad_bottom)) ->
  Np.shape img = (img_size, img_size)
  /\ 0 < fst (Np.shape frame) /\ 0 < snd (Np.shape frame)
  /\ 0 <= pad_left <= pad_right /\ pad_right <= pad_left + 1
  /\ 0 <= pad_top <= pad_bottom /\ pad_bottom <= pad_top + 1
  /\ pad_left + pad_right < img_size /\ pad_top + pad_bottom < img_size.
Proof.
  intros Hinterp. unfold letterbox.
  destruct (Np.shape frame) as [height width] eqn:Hshape.
  destruct (Z.max height width =? 0); [discriminate|].
  unfold mbind, result_bind.
  destruct (int_of_float _) as [new_width|e]; [|discriminate]. simpl.
  destruct (int_of_float _) as [new_height|e]; [|discriminate]. simpl.
  unfold cv2_resize. rewrite Hshape.
  destruct ((height <=? 0) || (width <=? 0) || (new_width <=? 0)
            || (new_height <=? 0)) eqn:Hempty; [discriminate|]. simpl.
  repeat (apply orb_false_elim in Hempty as [Hempty ?]).
  assert (0 < height /\ 0 < width /\ 0 < new_width /\ 0 < new_height)
    as (Hh & Hw & Hnw & Hnh) by (repeat split; apply Z.leb_gt; assumption).
  destruct (copyMakeBorder _ _ _ _ _) as [letterboxed|e] eqn:Hborder;
    [|discriminate]. simpl.
  intros [= <- <- <- <- <-].
  destruct (copyMakeBorder_shape _ _ new_height new_width _ _ _ _
              (Hinterp frame new_width new_height Hnw Hnh) Hnh Hborder)
    as (Ht & Hb & Hl & Hr & Hout).
  pose proof (Z.div_mod (img_size - new_width) 2 ltac:(lia)) as Hdw.
  pose proof (Z.mod_pos_bound (img_size - new_width) 2 ltac:(lia)) as Hmw.
  pose proof (Z.div_mod (img_size - new_height) 2 ltac:(lia)) as Hdh.
  pose proof (Z.mod_pos_bound (img_size - new_height) 2 ltac:(lia)) as Hmh.
  split; [rewrite Hout; f_equal; lia|]. simpl. lia.
Qed.

End WithCv2.

(** A square frame of 49 by 49 pixels, for a square of side 8. In
    floating point, [49 * (8 / 49)] is below 8. *)
Definition square49 : Np.image := repeat (repeat (1, 2, 3) 49) 49.

Lemma letterbox_returns_square_witness :
  exists img,
    letterbox (cv := Standin.cv2) square49 8 = Ok (img, (0, 0, 1, 1))
    /\ Np.shape img = (8, 8).
Proof.
  assert (Hflat : forall f w h, 0 < w -> 0 < h ->
                    Np.shape (interpolate (Cv2 := Standin.cv2) f w h) = (h, w)).
  { intros f w h Hw Hh. unfold Np.shape. simpl.
    rewrite repeat_length. f_equal; [lia|].
    destruct (Z.to_nat h) as [|n] eqn:Hn; [lia|]. simpl.
    rewrite repeat_length. lia. }
  destruct (letterbox (cv := Standin.cv2) square49 8)
    as [[img [[[l t] r] b]]|e] eqn:Hcall; [|vm_compute in Hcall; discriminate].
  pose proof (letterbox_returns_square (cv := Standin.cv2) square49 img 8
                l t r b Hflat Hcall) as (Hsquare & _).
  exists img. split; [|exact Hsquare].
  vm_compute in Hcall. injection Hcall as <- <- <- <- <-.
  vm_compute. reflexivity.
Defined.

End LetterboxFacts.

(** ** Who an alert can name *)

Module TargetFacts.

Import Demo.






End TargetFacts.

(** ** Enrollment without the operator *)

Module AutoEnrollFacts.

Import Demo.

Lemma makedirs_paths (w : World) (p : string) :
  paths (makedirs_if_absent w p) = paths w ∪ {[ p ]}
  /\ written (makedirs_if_absent w p) = written w
  /\ database (makedirs_if_absent w p) = database w
  /\ tracker_dict (makedirs_if_absent w p) = tracker_dict w.
Proof.
  unfold makedirs_if_absent.
  destruct (decide (p ∈ paths w)) as [Hin|Hout].
  - rewrite (bool_decide_eq_true_2 _ Hin). repeat split. set_solver.
  - rewrite (bool_decide_eq_false_2 _ Hout). repeat split.
Qed.

(** How [process_target_face_automatically] ends, case by case.
    Without an embedding of positive norm in time it returns and has
    persisted nothing. With one, and no target name, it raises the
    [TypeError] of [os.path.join] and has persisted nothing. With one
    and a target name, the profile directory of the target is there
    afterwards, created if need be; an empty crop then makes
    [cv2.cvtColor] raise, the directory being all that is left of the
    call; otherwise the gallery gets one entry for the file numbered
    with the first free index, so that no image there is overwritten,
    the file is written when [cv2.imwrite] manages to, and the search
    targets are renewed. *)
Theorem automatic_enrollment_outcome (self : t) (env : Env) (w : World)
    (face_data : FaceData) (image : Np.image) (profile_names : gset string) :
  let ended :=
    process_target_face_automatically self env w face_data image profile_names in
  let cropped := (recognize_face env w face_data image).1.2 in
  match EnrollFacts.populated env face_data with
  | None =>
      exists w', ended = Returns self w' /\ EnrollFacts.unchanged (paths w) w w'
  | Some emb =>
      match target_name self with
      | None =>
          exists w', ended = Raises Py.TypeError w'
                     /\ EnrollFacts.unchanged (paths w) w w'
      | Some target =>
          let dir := os_path_join (db_path env) target in
          if is_empty cropped then
            exists w', ended = Raises Py.Cv2Error w'
                       /\ EnrollFacts.unchanged (paths w ∪ {[ dir ]}) w w'
          else
            exists w', ended = Returns (update_search_targets self profile_names) w'
                       /\ EnrollFacts.persisted env (paths w ∪ {[ dir ]}) dir
                                                cropped emb w w'
      end
  end.
Proof.
  unfold process_target_face_automatically.
  destruct (EnrollFacts.recognize_face_spec env w face_data image) as [Hw Hfound].
  destruct (recognize_face env w face_data image) as [[w1 cropped] found] eqn:Hrec.
  simpl in Hw, Hfound. subst w1 found. simpl.
  destruct (EnrollFacts.populated env face_data) as [emb|];
    [|eexists; split; [reflexivity|repeat split]].
  destruct (target_name self) as [target|];
    [|eexists; split; [reflexivity|repeat split]].
  set (dir := os_path_join (db_path env) target).
  set (w0 := mkWorld (delete manual_track_id (tracker_dict w)) (paths w)
                     (written w) (database w)).
  destruct (makedirs_paths w0 dir) as (Hp & Hwr & Hdb & _).
  simpl in Hp, Hwr, Hdb.
  assert (Hin : dir ∈ paths (makedirs_if_absent w0 dir)) by (rewrite Hp; set_solver).
  rewrite (bool_decide_eq_true_2 _ Hin).
  pose proof (EnrollFacts.store_spec env (makedirs_if_absent w0 dir) dir cropped emb)
    as Hstore.
  destruct (is_empty cropped).
  - rewrite Hstore. eexists. split; [reflexivity|].
    unfold EnrollFacts.unchanged. auto.
  - destruct Hstore as (w' & -> & Hpers & _).
    exists w'. split; [reflexivity|].
    unfold EnrollFacts.persisted in *. rewrite Hp, Hwr, Hdb in Hpers. exact Hpers.
Qed.

End AutoEnrollFacts.

(** ** A frame the input callback cannot letterbox *)

Module SourceFacts.

Import Py YoloE.

Section WithBackends.

Context `{cv : Cv2} `{rt : Runtime}.



End WithBackends.




End SourceFacts.

(** ** The movie time tracker, [backend/main.py] *)

Module Backend.

(** The exceptions that can leave the modelled functions, and a
    computation that may raise one. *)
Inductive raised : Type :=
| AttributeError
| TypeError
| ValueError (msg : string)
| OverflowError.

Inductive result (A : Type) : Type :=
| Ok (a : A)
| Raise (e : raised).
Arguments Ok {A} a.
Arguments Raise {A} e.

#[global] Instance backend_ret : MRet result := @Ok.
#[global] Instance backend_bind : MBind result :=
  fun A B k m => match m with Ok a => k a | Raise e => Raise e end.

(** A [str]: its code points. *)
Definition str : Type := list N.

(** An ASCII literal. *)
Definition lit (s : string) : str :=
  map N_of_ascii (list_ascii_of_string s).

(** A value of a decoded JSON document, as Python holds it. The
    items of a [dict] are in insertion order, with distinct keys. *)
#[local] Unset Elimination Schemes.
Inductive json : Type :=
| JNull
| JBool (b : bool)
| JInt (z : Z)
| JFloat (f : PrimFloat.float)
| JStr (s : str)
| JArr (l : list json)
| JObj (items : list (str * json)).
#[local] Set Elimination Schemes.

(** Truth value. *)
Definition truthy (v : json) : bool :=
  match v with
  | JNull => false
  | JBool b => b
  | JInt z => negb (z =? 0)
  | JFloat f => negb (PrimFloat.eqb f PrimFloat.zero)
  | JStr s => negb (bool_decide (s = []))
  | JArr l => match l with [] => false | _ => true end
  | JObj items => match items with [] => false | _ => true end
  end.

(** [v == s] for a string [s]. *)
Definition eq_str (v : json) (s : str) : bool :=
  match v with
  | JStr t => bool_decide (t = s)
  | _ => false
  end.

(** [d.get(key, default)]; only a [dict] has the method. *)
Definition get (d : json) (key : str) (default : json) : result json :=
  match d with
  | JObj items =>
      match List.find (fun kv => bool_decide (kv.1 = key)) items with
      | Some kv => Ok kv.2
      | None => Ok default
      end
  | _ => Raise AttributeError
  end.

(** What the code takes from the Python runtime: the decimal digits
    of Unicode beyond ASCII with their values (category [Nd]), the
    limit [sys.get_int_max_str_digits()] ([0]: none; otherwise 640
    at least), [str(v)] on a
    value that is not a string, the true division of integers, and
    [round(x, ndigits)]. *)
Class Python : Type := {
  decimal : N -> option N;
  int_max_str_digits : nat;
  format : json -> str;
  true_div : Z -> Z -> result PrimFloat.float;
  round : PrimFloat.float -> Z -> PrimFloat.float
}.

(** The dictionary [add_watched_movie] builds. *)
Record Movie : Type := {
  m_id : str;
  m_title : json;
  m_year : json;
  m_duration : Z;
  m_type : str;
  m_imdb_id : str;
  m_poster : json;
  m_plot : json;
  m_genre : json;
  m_director : json;
  m_actors : json;
  m_is_omdb : bool
}.

(** An entry of [watched_movies]. *)
Record Entry : Type := {
  movie : Movie;
  watched_at : str
}.

(** How a request ends. [Uncaught]: an exception that is no
    [HTTPException] leaves the handler. *)
Inductive failure : Type :=
| HTTPException (status_code : Z) (detail : str)
| Uncaught (e : raised).

(** The answer of a handler, and [watched_movies] as it leaves
    it. *)
Inductive reply (A : Type) : Type :=
| Returns (a : A) (watched_movies : list Entry)
| Fails (f : failure) (watched_movies : list Entry).
Arguments Returns {A} a watched_movies.
Arguments Fails {A} f watched_movies.

Definition watched_after {A} (r : reply A) : list Entry :=
  match r with
  | Returns _ w => w
  | Fails _ w => w
  end.

(** The dictionary [get_stats] returns. *)
Record Stats : Type := {
  total_minutes : Z;
  total_hours : PrimFloat.float;
  total_days : PrimFloat.float;
  total_count : Z
}.

(** A request that changes [watched_movies]. *)
Inductive request : Type :=
| PostWatched (movie_id : str) (movie_details : json) (now : str)
| DeleteWatched (movie_id : str).

Section WithPython.

Context `{py : Python}.

(** The value of a code point that [\d] matches. *)
Definition digit_value (c : N) : option N :=
  if (c <? 128)%N then
    if (48 <=? c)%N && (c <=? 57)%N then Some (c - 48)%N else None
  else decimal c.

(** The longest run of digits a string begins with, as values. *)
Fixpoint leading_digits (s : str) : list N :=
  match s with
  | c :: rest =>
      match digit_value c with
      | Some d => d :: leading_digits rest
      | None => []
      end
  | [] => []
  end.

(** [re.search(r'(\d+)', s)]: the leftmost, longest run of digits;
    [match.group(1)] as the values of its digits. *)
Fixpoint search_digits (s : str) : option (list N) :=
  match s with
  | c :: rest =>
      match digit_value c with
      | Some d => Some (d :: leading_digits rest)
      | None => search_digits rest
      end
  | [] => None
  end.

(** The number a run of digits writes. *)
Definition number (digits : list N) : Z :=
  fold_left (fun acc d => 10 * acc + Z.of_N d) digits 0.

(** [int(s)] on a run of digits: beyond the limit on the length of
    the string it raises [ValueError] (the message is the one of
    CPython 3.12). *)
Definition int_of_digits (digits : list N) : result Z :=
  if negb (int_max_str_digits =? 0)%nat && (int_max_str_digits <? length digits)%nat
  then Raise (ValueError
                ("Exceeds the limit (" +:+ pretty int_max_str_digits
                 +:+ " digits) for integer string conversion: value has "
                 +:+ pretty (length digits)
                 +:+ " digits; use sys.set_int_max_str_digits() to increase the limit"))
  else Ok (number digits).

(** [parse_runtime]. The annotation [runtime_str: str] is not
    enforced: [re.search] raises [TypeError] on a value that is not a
    string. *)
Definition parse_runtime (runtime_str : json) : result Z :=
  if negb (truthy runtime_str) || eq_str runtime_str (lit "N/A") then Ok 0
  else match runtime_str with
       | JStr s =>
           match search_digits s with
           | Some digits => int_of_digits digits
           | None => Ok 0
           end
       | _ => Raise TypeError
       end.

(** [s.startswith(prefix)] *)
Fixpoint startswith (s prefix : str) : bool :=
  match prefix, s with
  | [], _ => true
  | p :: prefix', c :: s' => bool_decide (c = p) && startswith s' prefix'
  | _ :: _, [] => false
  end.

(** [s.replace(old, "")] for [old] that is not empty: the
    occurrences of [old] are found from the left and do not overlap;
    [skip] code points of the occurrence found last are still to be
    passed over. *)
Fixpoint remove_all (old : str) (skip : nat) (s : str) : str :=
  match s with
  | [] => []
  | c :: rest =>
      match skip with
      | S k => remove_all old k rest
      | O =>
          if startswith s old then remove_all old (length old - 1) rest
          else c :: remove_all old 0 rest
      end
  end.

(** A key that is [None] or empty. *)
Definition no_key (OMDB_API_KEY : option str) : bool :=
  match OMDB_API_KEY with
  | Some (_ :: _) => false
  | _ => true
  end.

(** [str(v)] inside an f-string. *)
Definition to_str (v : json) : str :=
  match v with
  | JStr s => s
  | _ => format v
  end.

(** [add_watched_movie]. [movie_details] is what
    [get_movie_details(imdb_id)] returned: the decoded answer of
    OMDb, or the empty [dict] after any failure; [now] is
    [datetime.now().isoformat()]. *)
Definition add_watched_movie (OMDB_API_KEY : option str) (movie_details : json)
    (now : str) (watched_movies : list Entry) (movie_id : str) : reply Movie :=
  if no_key OMDB_API_KEY then
    Fails (HTTPException 500
             (lit "OMDb API key not configured. Please add OMDB_API_KEY to your environment variables."))
          watched_movies
  else if negb (startswith movie_id (lit "omdb_")) then
    Fails (HTTPException 400
             (lit "Invalid movie ID format. Only OMDb movies are supported."))
          watched_movies
  else
    let imdb_id := remove_all (lit "omdb_") 0 movie_id in
    match get movie_details (lit "Response") JNull with
    | Raise e => Fails (Uncaught e) watched_movies
    | Ok response =>
        if eq_str response (lit "True") then
          let built : result Movie :=
            title ← get movie_details (lit "Title") (JStr []);
            year ← get movie_details (lit "Year") (JStr []);
            runtime ← get movie_details (lit "Runtime") (JStr []);
            duration ← parse_runtime runtime;
            type ← get movie_details (lit "Type") JNull;
            poster ← get movie_details (lit "Poster") (JStr []);
            plot ← get movie_details (lit "Plot") (JStr []);
            genre ← get movie_details (lit "Genre") (JStr []);
            director ← get movie_details (lit "Director") (JStr []);
            actors ← get movie_details (lit "Actors") (JStr []);
            Ok {| m_id := movie_id;
                  m_title := title;
                  m_year := year;
                  m_duration := duration;
                  m_type := if eq_str type (lit "movie")
                            then lit "movie" else lit "series";
                  m_imdb_id := imdb_id;
                  m_poster := poster;
                  m_plot := plot;
                  m_genre := genre;
                  m_director := director;
                  m_actors := actors;
                  m_is_omdb := true |} in
          match built with
          | Raise e => Fails (Uncaught e) watched_movies
          | Ok movie =>
              match List.find
                      (fun entry =>
                         bool_decide (m_imdb_id (Backend.movie entry) = imdb_id))
                      watched_movies with
              | Some _ =>
                  Fails (HTTPException 409
                           (lit "Movie '" ++ to_str (m_title movie)
                            ++ lit "' is already in your watched list."))
                        watched_movies
              | None =>
                  Returns movie
                          (watched_movies
                           ++ [ {| Backend.movie := movie; watched_at := now |} ])
              end
          end
        else Fails (HTTPException 404 (lit "Movie not found in OMDb")) watched_movies
    end.

(** [get_watched_movies] *)
Definition get_watched_movies (watched_movies : list Entry) : reply (list Entry) :=
  Returns watched_movies watched_movies.

(** [sum(entry["movie"]["duration"] for entry in watched_movies)] *)
Definition sum_durations (watched_movies : list Entry) : Z :=
  fold_left (fun acc entry => acc + m_duration (movie entry)) watched_movies 0.

(** [get_stats] *)
Definition get_stats (watched_movies : list Entry) : reply Stats :=
  let total_minutes := sum_durations watched_movies in
  let total_count := Z.of_nat (length watched_movies) in
  match true_div total_minutes 60 with
  | Raise e => Fails (Uncaught e) watched_movies
  | Ok hours =>
      match true_div total_minutes (60 * 24) with
      | Raise e => Fails (Uncaught e) watched_movies
      | Ok days =>
          Returns {| total_minutes := total_minutes;
                     total_hours := round hours 1;
                     total_days := round days 2;
                     total_count := total_count |}
                  watched_movies
      end
  end.

(** [remove_watched_movie]; the identifiers in the list are
    strings, which [str] leaves as they are. *)
Definition remove_watched_movie (watched_movies : list Entry) (movie_id : str)
  : reply unit :=
  let initial_length := length watched_movies in
  let watched_movies :=
    List.filter (fun entry => negb (bool_decide (m_id (movie entry) = movie_id)))
                watched_movies in
  if (length watched_movies <? initial_length)%nat then Returns tt watched_movies
  else Fails (HTTPException 404 (lit "Movie not found in watched list")) watched_movies.

(** [watched_movies] after a request. *)
Definition handle (OMDB_API_KEY : option str) (watched_movies : list Entry)
    (r : request) : list Entry :=
  match r with
  | PostWatched movie_id movie_details now =>
      watched_after (add_watched_movie OMDB_API_KEY movie_details now
                                       watched_movies movie_id)
  | DeleteWatched movie_id =>
      watched_after (remove_watched_movie watched_movies movie_id)
  end.

(** [watched_movies] after the requests served since the start of
    the server. *)
Definition serve (OMDB_API_KEY : option str) (requests : list request) : list Entry :=
  fold_left (handle OMDB_API_KEY) requests [].

End WithPython.

End Backend.

(** ** The watched list and its statistics *)

Module BackendFacts.

Import Backend.

Section WithPython.

Context `{py : Python}.

Lemma number_snoc_nonneg (digits : list N) (acc : Z) :
  0 <= acc -> 0 <= fold_left (fun acc d => 10 * acc + Z.of_N d) digits acc.
Proof.
  revert acc. induction digits as [|d digits IH]; intros acc Hacc; simpl; [exact Hacc|].
  apply IH. lia.
Qed.

Lemma number_nonneg (digits : list N) : 0 <= number digits.
Proof. apply number_snoc_nonneg. lia. Qed.

Lemma leading_digits_run (run post : str) (digits : list N) :
  Forall2 (fun c d => digit_value c = Some d) run digits ->
  (forall c rest, post = c :: rest -> digit_value c = None) ->
  leading_digits (run ++ post) = digits.
Proof.
  intros Hrun Hpost. induction Hrun as [|c d run digits Hc _ IH]; simpl.
  - destruct post as [|c rest]; [reflexivity|].
    simpl. by rewrite (Hpost c rest eq_refl).
  - by rewrite Hc, IH.
Qed.

Lemma search_digits_skip (pre s : str) :
  Forall (fun c => digit_value c = None) pre ->
  search_digits (pre ++ s) = search_digits s.
Proof.
  induction 1 as [|c pre Hc _ IH]; simpl; [reflexivity|]. by rewrite Hc.
Qed.

Lemma search_digits_run (pre run post : str) (digits : list N) :
  Forall (fun c => digit_value c = None) pre ->
  Forall2 (fun c d => digit_value c = Some d) run digits ->
  run <> [] ->
  (forall c rest, post = c :: rest -> digit_value c = None) ->
  search_digits (pre ++ run ++ post) = Some digits.
Proof.
  intros Hpre Hrun Hne Hpost. rewrite (search_digits_skip _ _ Hpre).
  destruct Hrun as [|c d run digits Hc Hrun]; [contradiction|].
  simpl. rewrite Hc. f_equal. f_equal. by apply leading_digits_run.
Qed.

(** [parse_runtime] reads the first number of a string and nothing
    else: in a string that consists of code points that are no
    digits, then a run of digits, and then either nothing or a code
    point that is no digit followed by anything, it returns the
    number the run writes (leading zeros included) which is never
    negative; what follows the run is ignored, later digits included,
    so that ["1h 30min"] counts as one minute. When the run is longer
    than the interpreter's limit for the conversion of strings to
    integers, it raises the [ValueError] of [int]. *)
Theorem parse_runtime_reads_first_number (pre run post : str) (digits : list N) :
  Forall (fun c => digit_value c = None) pre ->
  Forall2 (fun c d => digit_value c = Some d) run digits ->
  run <> [] ->
  (forall c rest, post = c :: rest -> digit_value c = None) ->
  parse_runtime (JStr (pre ++ run ++ post)) = int_of_digits digits
  /\ 0 <= number digits
  /\ ((int_max_str_digits = 0%nat \/ (length run <= int_max_str_digits)%nat) ->
      parse_runtime (JStr (pre ++ run ++ post)) = Ok (number digits)).
Proof.
  intros Hpre Hrun Hne Hpost.
  pose proof (search_digits_run pre run post digits Hpre Hrun Hne Hpost) as Hsearch.
  assert (Hparse : parse_runtime (JStr (pre ++ run ++ post)) = int_of_digits digits).
  { unfold parse_runtime. simpl.
    destruct (decide (pre ++ run ++ post = [])) as [He|He].
    { rewrite He in Hsearch. discriminate. }
    rewrite (bool_decide_eq_false_2 _ He). simpl.
    destruct (decide (pre ++ run ++ post = lit "N/A")) as [Hna|Hna].
    { rewrite Hna in Hsearch. discriminate. }
    rewrite (bool_decide_eq_false_2 _ Hna). by rewrite Hsearch. }
  split; [exact Hparse|]. split; [apply number_nonneg|].
  intros Hlimit. rewrite Hparse. unfold int_of_digits.
  rewrite <- (Forall2_length _ _ _ Hrun).
  destruct Hlimit as [-> | Hle]; [reflexivity|].
  assert (Hlt : (int_max_str_digits <? length run)%nat = false)
    by (apply Nat.ltb_ge; exact Hle).
  rewrite Hlt, andb_false_r. reflexivity.
Qed.

(** Whatever it is given, [parse_runtime] returns no negative
    number. *)
Lemma parse_runtime_nonneg (v : json) (z : Z) : parse_runtime v = Ok z -> 0 <= z.
Proof.
  unfold parse_runtime.
  destruct (negb (truthy v) || eq_str v (lit "N/A")); [intros [= <-]; lia|].
  destruct v; try discriminate.
  destruct (search_digits s) as [digits|]; [|intros [= <-]; lia].
  unfold int_of_digits.
  destruct (negb _ && _); [discriminate|]. intros [= <-]. apply number_nonneg.
Qed.

(** *** The list of watched movies *)

Definition ids (watched_movies : list Entry) : list str :=
  (fun entry => m_id (movie entry)) <$> watched_movies.

Definition imdb_ids (watched_movies : list Entry) : list str :=
  (fun entry => m_imdb_id (movie entry)) <$> watched_movies.

(** An entry as [add_watched_movie] makes them. *)
Definition well_formed (entry : Entry) : Prop :=
  startswith (m_id (movie entry)) (lit "omdb_") = true
  /\ m_imdb_id (movie entry) = remove_all (lit "omdb_") 0 (m_id (movie entry))
  /\ 0 <= m_duration (movie entry)
  /\ m_is_omdb (movie entry) = true.

Definition sound (watched_movies : list Entry) : Prop :=
  NoDup (imdb_ids watched_movies) /\ Forall well_formed watched_movies.

Lemma find_none_not_in (watched_movies : list Entry) (imdb_id : str) :
  List.find (fun entry => bool_decide (m_imdb_id (movie entry) = imdb_id))
            watched_movies = None ->
  imdb_id ∉ imdb_ids watched_movies.
Proof.
  induction watched_movies as [|e ws IH]; simpl; [intros _; apply not_elem_of_nil|].
  destruct (decide (m_imdb_id (movie e) = imdb_id)) as [He|He].
  - by rewrite (bool_decide_eq_true_2 _ He).
  - rewrite (bool_decide_eq_false_2 _ He). intros Hnone.
    apply not_elem_of_cons. split; [congruence|by apply IH].
Qed.

Lemma find_some_in (watched_movies : list Entry) (imdb_id : str) (e : Entry) :
  List.find (fun entry => bool_decide (m_imdb_id (movie entry) = imdb_id))
            watched_movies = Some e ->
  imdb_id ∈ imdb_ids watched_movies.
Proof.
  induction watched_movies as [|e0 ws IH]; simpl; [discriminate|].
  destruct (decide (m_imdb_id (movie e0) = imdb_id)) as [He|He].
  - intros _. rewrite <- He. apply list_elem_of_here.
  - rewrite (bool_decide_eq_false_2 _ He). intros Hsome.
    apply list_elem_of_further. by apply IH.
Qed.

(** The value under a key of a [dict]. *)
Definition item (items : list (str * json)) (key : str) (default : json) : json :=
  match List.find (fun kv => bool_decide (kv.1 = key)) items with
  | Some kv => kv.2
  | None => default
  end.

Lemma get_item (items : list (str * json)) (key : str) (default : json) :
  get (JObj items) key default = Ok (item items key default).
Proof. unfold get, item. by destruct (List.find _ items). Qed.

(** What an accepted [add_watched_movie] has done. *)
Lemma add_accepted (OMDB_API_KEY : option str) (movie_details : json) (now : str)
    (watched_movies watched_movies' : list Entry) (movie_id : str) (m : Movie) :
  add_watched_movie OMDB_API_KEY movie_details now watched_movies movie_id
  = Returns m watched_movies' ->
  watched_movies' = watched_movies ++ [ {| movie := m; watched_at := now |} ]
  /\ m_id m = movie_id
  /\ well_formed {| movie := m; watched_at := now |}
  /\ (m_imdb_id m ∉ imdb_ids watched_movies)
  /\ no_key OMDB_API_KEY = false
  /\ (exists runtime,
        get movie_details (lit "Runtime") (JStr []) = Ok runtime
        /\ parse_runtime runtime = Ok (m_duration m)).
Proof.
  unfold add_watched_movie.
  destruct (no_key OMDB_API_KEY); [discriminate|].
  destruct (startswith movie_id (lit "omdb_")) eqn:Hstart; [|discriminate]. simpl.
  destruct movie_details as [| | | | | |items]; try discriminate.
  rewrite !get_item.
  destruct (eq_str _ (lit "True")); [|discriminate].
  unfold mbind, backend_bind.
  destruct (parse_runtime (item items (lit "Runtime") (JStr []))) as [duration|e]
    eqn:Hparse; [|discriminate].
  destruct (List.find _ watched_movies) as [old|] eqn:Hfind; [discriminate|].
  intros [= <- <-]. simpl.
  split; [reflexivity|]. split; [reflexivity|].
  split; [repeat split; simpl; try assumption;
          eapply parse_runtime_nonneg; eassumption|].
  split; [by apply find_none_not_in|].
  split; [reflexivity|].
  eexists. split; [reflexivity|exact Hparse].
Qed.

Lemma filter_sound (f : Entry -> bool) (watched_movies : list Entry) :
  sound watched_movies -> sound (List.filter f watched_movies).
Proof.
  intros [Hnd Hwf]. split.
  - unfold imdb_ids in *. induction watched_movies as [|e ws IH]; simpl; [constructor|].
    simpl in Hnd. apply NoDup_cons in Hnd as [Hin Hnd].
    apply Forall_cons in Hwf as [_ Hwf].
    destruct (f e); simpl; [|by apply IH].
    apply NoDup_cons. split; [|by apply IH].
    intros Hin'. apply Hin.
    apply list_elem_of_fmap in Hin' as (e' & He' & Hf).
    apply list_elem_of_fmap. exists e'. split; [exact He'|].
    apply list_elem_of_In, filter_In in Hf as [Hf _]. by apply list_elem_of_In.
  - apply Forall_forall. intros e He.
    apply list_elem_of_In, filter_In in He as [He _].
    rewrite Forall_forall in Hwf. by apply Hwf, list_elem_of_In.
Qed.

Lemma handle_sound (OMDB_API_KEY : option str) (watched_movies : list Entry)
    (r : request) :
  sound watched_movies -> sound (handle OMDB_API_KEY watched_movies r).
Proof.
  intros Hs. destruct r as [movie_id movie_details now|movie_id]; simpl.
  - destruct (add_watched_movie OMDB_API_KEY movie_details now watched_movies
                                movie_id) as [m ws'|f ws'] eqn:Hadd.
    + destruct (add_accepted _ _ _ _ _ _ _ Hadd) as (-> & _ & Hwf & Hnew & _).
      destruct Hs as [Hnd Hall]. simpl. split.
      * unfold imdb_ids in *. rewrite fmap_app. simpl.
        apply NoDup_app. split; [exact Hnd|]. split; [|apply NoDup_singleton].
        intros x Hx Hx'. apply list_elem_of_singleton in Hx'. subst x. contradiction.
      * apply Forall_app. split; [exact Hall|]. by apply Forall_singleton.
    + assert (ws' = watched_movies) as ->; [|exact Hs].
      unfold add_watched_movie in Hadd.
      repeat match type of Hadd with
             | (if ?c then _ else _) = _ => destruct c
             | (let _ := _ in _) = _ => simpl in Hadd
             | match ?c with _ => _ end = _ => destruct c
             end; congruence.
  - unfold remove_watched_movie.
    destruct (_ <? _)%nat; simpl; by apply filter_sound.
Qed.

Lemma serve_from (OMDB_API_KEY : option str) (requests : list request)
    (watched_movies : list Entry) :
  sound watched_movies ->
  sound (fold_left (handle OMDB_API_KEY) requests watched_movies).
Proof.
  revert watched_movies. induction requests as [|r requests IH]; intros ws Hs;
    [exact Hs|].
  simpl. apply IH. by apply handle_sound.
Qed.

Lemma serve_sound (OMDB_API_KEY : option str) (requests : list request) :
  sound (serve OMDB_API_KEY requests).
Proof. apply serve_from. split; [constructor|constructor]. Qed.

Lemma sound_ids (watched_movies : list Entry) :
  sound watched_movies -> NoDup (ids watched_movies).
Proof.
  intros [Hnd Hwf]. unfold ids, imdb_ids in *.
  assert (Heq : (fun entry => m_imdb_id (movie entry)) <$> watched_movies
                = remove_all (lit "omdb_") 0
                  <$> ((fun entry => m_id (movie entry)) <$> watched_movies)).
  { rewrite <- list_fmap_compose. apply Forall_fmap_ext_1.
    eapply Forall_impl; [exact Hwf|]. intros e (_ & He & _). exact He. }
  rewrite Heq in Hnd. by apply NoDup_fmap_1 in Hnd.
Qed.

(** Whatever requests the server has answered since it started,
    accepted or refused: no two entries of the watched list have the
    same IMDb identifier, and none the same movie identifier; every
    movie identifier begins with ["omdb_"], and the IMDb identifier
    next to it is what is left of it without every ["omdb_"]; and no
    duration is negative, so neither is their sum. *)
Theorem watched_list_has_no_duplicates (OMDB_API_KEY : option str)
    (requests : list request) :
  let watched_movies := serve OMDB_API_KEY requests in
  NoDup (imdb_ids watched_movies)
  /\ NoDup (ids watched_movies)
  /\ Forall (fun entry =>
               startswith (m_id (movie entry)) (lit "omdb_") = true
               /\ m_imdb_id (movie entry)
                  = remove_all (lit "omdb_") 0 (m_id (movie entry))
               /\ 0 <= m_duration (movie entry)) watched_movies
  /\ 0 <= sum_durations watched_movies.
Proof.
  simpl. pose proof (serve_sound OMDB_API_KEY requests) as Hs.
  split; [apply Hs|]. split; [by apply sound_ids|].
  destruct Hs as [_ Hwf]. split.
  - eapply Forall_impl; [exact Hwf|]. intros e (?&?&?&?). auto.
  - unfold sum_durations.
    assert (Hge : forall ws acc, Forall well_formed ws -> 0 <= acc ->
                    0 <= fold_left (fun acc entry => acc + m_duration (movie entry))
                                   ws acc).
    { induction ws as [|e ws IH]; intros acc Hall Hacc; [exact Hacc|].
      apply Forall_cons in Hall as [(_ & _ & Hd & _) Hall].
      simpl. apply IH; [exact Hall|lia]. }
    apply Hge; [exact Hwf|lia].
Qed.

Lemma filter_all (movie_id : str) (watched_movies : list Entry) :
  movie_id ∉ ids watched_movies ->
  List.filter (fun entry => negb (bool_decide (m_id (movie entry) = movie_id)))
              watched_movies = watched_movies.
Proof.
  induction watched_movies as [|e ws IH]; intros Hout; [reflexivity|].
  unfold ids in Hout. simpl in Hout.
  apply not_elem_of_cons in Hout as [Hne Hout]. simpl.
  rewrite bool_decide_eq_false_2 by congruence. simpl. f_equal. by apply IH.
Qed.

Lemma filter_one (movie_id : str) (watched_movies : list Entry) :
  NoDup (ids watched_movies) -> movie_id ∈ ids watched_movies ->
  S (length (List.filter
               (fun entry => negb (bool_decide (m_id (movie entry) = movie_id)))
               watched_movies)) = length watched_movies.
Proof.
  induction watched_movies as [|e ws IH]; intros Hnd Hin;
    [by apply elem_of_nil in Hin|].
  unfold ids in Hnd, Hin. simpl in Hnd, Hin.
  apply NoDup_cons in Hnd as [Hfresh Hnd]. simpl.
  destruct (decide (m_id (movie e) = movie_id)) as [He|He].
  - rewrite (bool_decide_eq_true_2 _ He). simpl. f_equal.
    rewrite filter_all; [reflexivity|]. by rewrite <- He.
  - rewrite (bool_decide_eq_false_2 _ He). simpl. f_equal.
    apply IH; [exact Hnd|].
    apply elem_of_cons in Hin as [Hin|Hin]; [congruence|exact Hin].
Qed.

(** [remove_watched_movie] on the watched list of a running
    server: when a movie of the list has the identifier, exactly one
    entry goes, the one with that identifier, and the others stay in
    their order; when none has, the request is refused with status
    404 and the list stays as it is. *)
Theorem remove_deletes_exactly_one (OMDB_API_KEY : option str)
    (requests : list request) (movie_id : str) :
  let watched_movies := serve OMDB_API_KEY requests in
  if bool_decide (movie_id ∈ ids watched_movies) then
    exists before entry after,
      watched_movies = before ++ entry :: after
      /\ m_id (movie entry) = movie_id
      /\ remove_watched_movie watched_movies movie_id
         = Returns tt (before ++ after)
      /\ movie_id ∉ ids (before ++ after)
  else
    remove_watched_movie watched_movies movie_id
    = Fails (HTTPException 404 (lit "Movie not found in watched list"))
            watched_movies.
Proof.
  simpl. pose proof (sound_ids _ (serve_sound OMDB_API_KEY requests)) as Hnd.
  set (ws := serve OMDB_API_KEY requests) in *. clearbody ws.
  destruct (decide (movie_id ∈ ids ws)) as [Hin|Hout].
  - rewrite (bool_decide_eq_true_2 _ Hin).
    unfold ids in Hin. apply list_elem_of_fmap in Hin as (entry & Hid & Hentry).
    apply list_elem_of_split in Hentry as (before & after & ->).
    unfold ids in Hnd. rewrite fmap_app in Hnd. simpl in Hnd.
    apply NoDup_app in Hnd as (_ & Hdisj & Hnd).
    apply NoDup_cons in Hnd as [Hafter _].
    assert (Hbefore : movie_id ∉ ids before).
    { intros H. apply (Hdisj movie_id H). rewrite Hid. apply list_elem_of_here. }
    assert (Hafter' : movie_id ∉ ids after) by (by rewrite Hid).
    exists before, entry, after. split; [reflexivity|]. split; [by symmetry|].
    split.
    + unfold remove_watched_movie.
      rewrite List.filter_app. simpl.
      rewrite bool_decide_eq_true_2 by (by symmetry). simpl.
      rewrite !filter_all by assumption.
      rewrite !length_app. simpl.
      assert (Hlt : (length before + length after
                     <? length before + S (length after))%nat = true)
        by (apply Nat.ltb_lt; lia).
      by rewrite Hlt.
    + unfold ids. rewrite fmap_app. intros H.
      apply elem_of_app in H as [H|H]; contradiction.
  - rewrite (bool_decide_eq_false_2 _ Hout).
    unfold remove_watched_movie. rewrite filter_all by exact Hout.
    by rewrite Nat.ltb_irrefl.
Qed.

(** A movie that was just added can be taken back: after an
    accepted [add_watched_movie] on the watched list of a running
    server, [remove_watched_movie] with the same identifier is
    accepted and leaves the list exactly as it was before the
    addition; and as long as the movie is in the list, no second
    addition under that identifier is accepted, whatever OMDb
    answers. *)
Theorem add_then_remove_restores (OMDB_API_KEY : option str)
    (requests : list request) (movie_details : json) (now : str)
    (movie_id : str) (m : Movie) (watched_movies' : list Entry) :
  add_watched_movie OMDB_API_KEY movie_details now
                    (serve OMDB_API_KEY requests) movie_id
  = Returns m watched_movies' ->
  remove_watched_movie watched_movies' movie_id
  = Returns tt (serve OMDB_API_KEY requests)
  /\ (forall movie_details' now' m' watched_movies'',
        add_watched_movie OMDB_API_KEY movie_details' now' watched_movies' movie_id
        <> Returns m' watched_movies'').
Proof.
  intros Hadd.
  pose proof (serve_sound OMDB_API_KEY requests) as Hs.
  set (ws := serve OMDB_API_KEY requests) in *. clearbody ws.
  destruct (add_accepted _ _ _ _ _ _ _ Hadd) as (-> & Hid & Hwf & Hnew & _).
  assert (Hfresh : movie_id ∉ ids ws).
  { intros Hin. apply Hnew. unfold ids in Hin.
    apply list_elem_of_fmap in Hin as (e & He & Hin).
    unfold imdb_ids. apply list_elem_of_fmap. exists e. split; [|exact Hin].
    destruct Hs as [_ Hall]. rewrite Forall_forall in Hall.
    destruct (Hall e Hin) as (_ & -> & _).
    destruct Hwf as (_ & Hm & _). simpl in Hm. by rewrite Hm, Hid, He. }
  split.
  - unfold remove_watched_movie. rewrite List.filter_app. simpl.
    rewrite (bool_decide_eq_true_2 _ Hid). simpl.
    rewrite filter_all by exact Hfresh. rewrite app_nil_r, length_app. simpl.
    assert (Hlt : (length ws <? length ws + 1)%nat = true)
      by (apply Nat.ltb_lt; lia).
    by rewrite Hlt.
  - intros movie_details' now' m' ws'' Hagain.
    destruct (add_accepted _ _ _ _ _ _ _ Hagain) as (_ & _ & Hwf' & Hnew' & _).
    apply Hnew'. unfold imdb_ids. rewrite fmap_app. apply elem_of_app. right.
    simpl. destruct Hwf as (_ & Hm & _), Hwf' as (_ & Hm' & _). simpl in Hm, Hm'.
    destruct (add_accepted _ _ _ _ _ _ _ Hagain) as (_ & Hid' & _).
    rewrite Hm, Hm', Hid, Hid'. apply list_elem_of_here.
Qed.

Lemma sum_durations_snoc (watched_movies : list Entry) (entry : Entry) :
  sum_durations (watched_movies ++ [entry])
  = sum_durations watched_movies + m_duration (movie entry).
Proof. unfold sum_durations. by rewrite fold_left_app. Qed.

(** The statistics follow the additions: an accepted
    [add_watched_movie] raises the number of movies [get_stats]
    reports by one and the minutes by the duration of the movie
    added, which is what [parse_runtime] reads in the runtime OMDb
    gave and is never negative; a refused one leaves both as they
    were. *)
Theorem stats_follow_additions (OMDB_API_KEY : option str)
    (movie_details : json) (now : str) (watched_movies : list Entry)
    (movie_id : str) (stats stats' : Stats) :
  get_stats watched_movies = Returns stats watched_movies ->
  get_stats (watched_after
               (add_watched_movie OMDB_API_KEY movie_details now watched_movies
                                  movie_id))
  = Returns stats'
            (watched_after
               (add_watched_movie OMDB_API_KEY movie_details now watched_movies
                                  movie_id)) ->
  match add_watched_movie OMDB_API_KEY movie_details now watched_movies movie_id with
  | Returns m _ =>
      total_count stats' = total_count stats + 1
      /\ total_minutes stats' = total_minutes stats + m_duration m
      /\ 0 <= m_duration m
      /\ exists runtime,
           get movie_details (lit "Runtime") (JStr []) = Ok runtime
           /\ parse_runtime runtime = Ok (m_duration m)
  | Fails _ _ =>
      total_count stats' = total_count stats
      /\ total_minutes stats' = total_minutes stats
  end.
Proof.
  assert (Hstats : forall ws st,
             get_stats ws = Returns st ws ->
             total_minutes st = sum_durations ws
             /\ total_count st = Z.of_nat (length ws)).
  { intros ws st. unfold get_stats.
    destruct (true_div (sum_durations ws) 60); [|discriminate].
    destruct (true_div (sum_durations ws) (60 * 24)); [|discriminate].
    intros [= <-]. split; reflexivity. }
  intros Hbefore Hafter.
  destruct (Hstats _ _ Hbefore) as [Hmin Hcount].
  destruct (add_watched_movie OMDB_API_KEY movie_details now watched_movies movie_id)
    as [m ws'|f ws'] eqn:Hadd; simpl in Hafter.
  - destruct (add_accepted _ _ _ _ _ _ _ Hadd) as (-> & _ & Hwf & _ & _ & Hrun).
    destruct (Hstats _ _ Hafter) as [Hmin' Hcount'].
    rewrite Hmin', Hcount', Hmin, Hcount, sum_durations_snoc, length_app. simpl.
    destruct Hwf as (_ & _ & Hd & _). simpl in Hd.
    split; [lia|]. split; [reflexivity|]. split; [exact Hd|exact Hrun].
  - assert (ws' = watched_movies) as ->.
    { unfold add_watched_movie in Hadd.
      repeat match type of Hadd with
             | (if ?c then _ else _) = _ => destruct c
             | (let _ := _ in _) = _ => simpl in Hadd
             | match ?c with _ => _ end = _ => destruct c
             end; congruence. }
    destruct (Hstats _ _ Hafter) as [Hmin' Hcount'].
    split; congruence.
Qed.

End WithPython.

(** An interpreter to run the examples with: no digits beyond
    ASCII, the limit of 4300 digits, and floats that it neither
    prints nor rounds. *)
Definition plain_python : Python :=
  {| decimal := fun _ => None;
     int_max_str_digits := 4300;
     format := fun _ => [];
     true_div := fun a b => Ok (PrimFloat.div (Py.float_of_int a) (Py.float_of_int b));
     round := fun x _ => x |}.

(** The answer of OMDb for one movie. *)
Definition the_matrix : json :=
  JObj [ (lit "Title", JStr (lit "The Matrix"));
         (lit "Year", JStr (lit "1999"));
         (lit "Runtime", JStr (lit "136 min"));
         (lit "Type", JStr (lit "movie"));
         (lit "Response", JStr (lit "True")) ].

Lemma parse_runtime_reads_first_number_witness :
  parse_runtime (py := plain_python) (JStr (lit "1h 30min")) = Ok 1.
Proof.
  apply (parse_runtime_reads_first_number (py := plain_python)
           [] (lit "1") (lit "h 30min") [1%N]).
  - constructor.
  - repeat constructor.
  - discriminate.
  - intros c rest [= <- <-]. reflexivity.
  - right. simpl. lia.
Defined.

Lemma add_then_remove_restores_witness :
  exists m watched_movies',
    add_watched_movie (py := plain_python) (Some (lit "key")) the_matrix
                      (lit "2024-05-01T20:15:00") [] (lit "omdb_tt0133093")
    = Returns m watched_movies'
    /\ m_duration m = 136
    /\ remove_watched_movie watched_movies' (lit "omdb_tt0133093") = Returns tt [].
Proof.
  eexists _, _. split; [vm_compute; reflexivity|]. split; [reflexivity|].
  refine (proj1 (add_then_remove_restores (py := plain_python) (Some (lit "key")) []
                   the_matrix (lit "2024-05-01T20:15:00") (lit "omdb_tt0133093")
                   _ _ _)).
  vm_compute. reflexivity.
Defined.

Lemma stats_follow_additions_witness :
  exists stats stats',
    get_stats (py := plain_python) [] = Returns stats []
    /\ get_stats (py := plain_python)
         (watched_after
            (add_watched_movie (py := plain_python) (Some (lit "key")) the_matrix
                               (lit "2024-05-01T20:15:00") [] (lit "omdb_tt0133093")))
       = Returns stats'
           (watched_after
              (add_watched_movie (py := plain_python) (Some (lit "key")) the_matrix
                                 (lit "2024-05-01T20:15:00") [] (lit "omdb_tt0133093")))
    /\ total_count stats = 0 /\ total_minutes stats = 0
    /\ total_count stats' = 1 /\ total_minutes stats' = 136.
Proof.
  eexists _, _. split; [vm_compute; reflexivity|].
  split; [vm_compute; reflexivity|].
  split; [reflexivity|]. split; [reflexivity|].
  pose proof (stats_follow_additions (py := plain_python) (Some (lit "key"))
                the_matrix (lit "2024-05-01T20:15:00") [] (lit "omdb_tt0133093")
                _ _ ltac:(vm_compute; reflexivity) ltac:(vm_compute; reflexivity))
    as Hstats.
  vm_compute in Hstats. destruct Hstats as (Hc & Hm & _).
  split; [exact Hc|exact Hm].
Defined.

End BackendFacts.
